(** * The auto-unseal manager of vault/seal_autoseal.go

    A shallow embedding of [autoSeal] and of the operations defined on it:
    construction, binding to a core, the barrier and recovery configuration
    cache, the stored keys and the recovery key, key upgrades, and one pass of
    the background health check.

    Go values are modelled as follows.
    - [[]byte] is [list byte]; where the code tests a slice against [nil]
      the argument is an [option] ([None] is the nil slice, [Some []] the
      empty non-nil one).
    - [*SealConfig] is a pointer into a heap of [SealConfig] objects, so
      that stamping [conf.Type] is visible to the caller.
    - [error] values keep the message of the [fmt.Errorf] that built them.
    - A method runs on a [World] (receiver, heap, clock, event trace) and
      either returns, returns an error, or panics (nil pointer
      dereference, index out of range).
    - Goroutines and locks are not modelled: a health-check pass is the
      sequential function [check]. *)

From Stdlib Require Import ZArith Lia NArith.
From Stdlib Require Import Strings.Byte.
From stdpp Require Import base option strings list gmap pretty.

Open Scope Z_scope.

(** ** Bytes, errors, results *)

Abbreviation bytes := (list byte).

#[global] Instance byte_eq_dec : EqDecision byte := Byte.byte_eq_dec.

(** [bytes.Equal]: a nil slice and an empty slice are equal. *)
Definition bytes_Equal (a b : bytes) : bool := bool_decide (a = b).

(** An [error] built by [fmt.Errorf]; [Wrapf] is the [%w] form. *)
Inductive error : Type :=
| Errorf (msg : string)
| Wrapf (msg : string) (cause : error).

(** The value half of a Go [(T, error)] pair. *)
Inductive result (A : Type) : Type :=
| Ok (a : A)
| Fail (e : error).
Arguments Ok {A} a.
Arguments Fail {A} e.

(** ** Seal configuration objects *)

(** Modelled from the spec: the declaration of [SealConfig] is not part of
    the sources at hand.  The spec describes it as a record of a [Type]
    and threshold/shares metadata that this code never inspects. *)
Record SealConfig : Type := mkSealConfig {
  Type_ : string;
  SecretShares : Z;
  SecretThreshold : Z;
  StoredShares : Z;
}.

Definition set_Type (t : string) (c : SealConfig) : SealConfig :=
  {| Type_ := t; SecretShares := SecretShares c;
     SecretThreshold := SecretThreshold c; StoredShares := StoredShares c |}.

(** A [*SealConfig]: [None] is nil, [Some p] the object at address [p]. *)
Abbreviation ptr := (option nat).

Definition SealConfigType := string.

(** Modelled from the spec: the constants are declared outside the sources
    at hand; the spec names the two kinds ["multiseal"] and ["recovery"]. *)
Definition SealConfigTypeMultiseal : SealConfigType := "multiseal".
Definition SealConfigTypeRecovery : SealConfigType := "recovery".

(** Modelled from the spec: [IsSameAs] is declared outside the sources at
    hand; the spec asks for a case-insensitive comparison with the
    recovery type. *)
Definition lower_ascii (a : Ascii.ascii) : Ascii.ascii :=
  let n := Ascii.nat_of_ascii a in
  if (Nat.leb 65 n && Nat.leb n 90)%bool then Ascii.ascii_of_nat (n + 32) else a.

Fixpoint lower (s : string) : string :=
  match s with
  | EmptyString => EmptyString
  | String a r => String (lower_ascii a) (lower r)
  end.

Definition IsSameAs (s : SealConfigType) (t : string) : bool :=
  bool_decide (lower s = lower t).

(** ** Storage *)

(** Modelled from the spec: fixed, opaque storage paths, declared outside
    the sources at hand.  Only their being pairwise distinct matters. *)
Definition barrierSealConfigPath : string := "core/seal-config".
Definition recoverySealConfigPath : string := "core/recovery-seal-config".
Definition recoverySealConfigPlaintextPath : string := "core/recovery-config".
Definition recoveryKeyPath : string := "core/recovery-key".
Definition StoredBarrierKeysPath : string := "core/hsm/barrier-unseal-keys".

(** [physical.Entry]. *)
Record Entry : Type := mkEntry { Key : string; Value : bytes }.

Inductive StoreOp : Type :=
| OpGet (path : string)
| OpPut (path : string)
| OpDelete (path : string).

(** A key-value store that may refuse an operation.  [faults] is the
    behaviour of the external storage engine; a refused write leaves the
    contents as they were. *)
Record Backend : Type := mkBackend {
  kv : gmap string bytes;
  faults : StoreOp → option error;
}.

Definition with_kv (m : gmap string bytes) (b : Backend) : Backend :=
  {| kv := m; faults := faults b |}.

(** ** The seal backends *)

(** One entry of [GetSealGenerationInfo().Seals]. *)
Record KMS : Type := mkKMS { kms_Type : string; kms_Name : string }.

(** [seal.SealInfo]: a configured backend with its health snapshot.  The
    two functions are the backend's own encrypt and decrypt; [w_Decrypt]
    returns the Go pair (plaintext, err). *)
Record SealInfo : Type := mkSealInfo {
  Name : string;
  Priority : Z;
  Healthy_ : bool;
  LastSeenHealthy : Z;
  LastHealthCheck : Z;
  w_Encrypt : bytes → result bytes;
  w_Decrypt : bytes → bytes * option error;
}.

(** [seal.Access], the capability the manager embeds.  [Encrypt] takes the
    number of encryptions made so far, standing for the fresh randomness of
    each call, and returns the marshalled wrapped value. *)
Record Access : Type := mkAccess {
  Seals : list KMS;
  SealInfos : list SealInfo;
  Encrypt : nat → bytes → result bytes;
  Decrypt : bytes → result bytes;
  IsUpToDate : bytes → bool → result bool;
  encryptions : nat;
}.

Definition with_SealInfos (l : list SealInfo) (a : Access) : Access :=
  {| Seals := Seals a; SealInfos := l; Encrypt := Encrypt a;
     Decrypt := Decrypt a;
     IsUpToDate := IsUpToDate a; encryptions := encryptions a |}.

Definition with_encryptions (n : nat) (a : Access) : Access :=
  {| Seals := Seals a; SealInfos := SealInfos a; Encrypt := Encrypt a;
     Decrypt := Decrypt a;
     IsUpToDate := IsUpToDate a; encryptions := n |}.

(** ** The core and the manager *)

(** The part of [*Core] the manager uses: the physical store, the barrier
    view that holds the legacy recovery configuration, and the sealed
    flag. *)
Record Core : Type := mkCore {
  physical : Backend;
  barrier : Backend;
  sealed : bool;
}.

Definition with_physical (b : Backend) (c : Core) : Core :=
  {| physical := b; barrier := barrier c; sealed := sealed c |}.

Definition with_barrier (b : Backend) (c : Core) : Core :=
  {| physical := physical c; barrier := b; sealed := sealed c |}.

(** The marshalling functions of the package, declared outside the sources
    at hand and taken as parameters: the wrapped-value decoder and the JSON
    codecs of key lists and of seal configurations. *)
Record Codec : Type := mkCodec {
  UnmarshalSealWrappedValue : bytes → result bytes;
  encodeKeys : list bytes → bytes;
  decodeKeys : bytes → result (list bytes);
  encodeConfig : SealConfig → bytes;
  decodeConfig : bytes → result SealConfig;
}.

Record autoSeal : Type := mkAutoSeal {
  access : Access;
  barrierSealConfigType : SealConfigType;
  barrierConfig : ptr;
  recoveryConfig : ptr;
  core : option Core;
  allSealsHealthy : bool;
  healthCheckStop : bool;
}.

Definition with_access (a : Access) (s : autoSeal) : autoSeal :=
  {| access := a; barrierSealConfigType := barrierSealConfigType s;
     barrierConfig := barrierConfig s; recoveryConfig := recoveryConfig s;
     core := core s; allSealsHealthy := allSealsHealthy s;
     healthCheckStop := healthCheckStop s |}.

Definition with_barrierSealConfigType (t : SealConfigType) (s : autoSeal) : autoSeal :=
  {| access := access s; barrierSealConfigType := t;
     barrierConfig := barrierConfig s; recoveryConfig := recoveryConfig s;
     core := core s; allSealsHealthy := allSealsHealthy s;
     healthCheckStop := healthCheckStop s |}.

Definition with_barrierConfig (p : ptr) (s : autoSeal) : autoSeal :=
  {| access := access s; barrierSealConfigType := barrierSealConfigType s;
     barrierConfig := p; recoveryConfig := recoveryConfig s;
     core := core s; allSealsHealthy := allSealsHealthy s;
     healthCheckStop := healthCheckStop s |}.

Definition with_recoveryConfig (p : ptr) (s : autoSeal) : autoSeal :=
  {| access := access s; barrierSealConfigType := barrierSealConfigType s;
     barrierConfig := barrierConfig s; recoveryConfig := p;
     core := core s; allSealsHealthy := allSealsHealthy s;
     healthCheckStop := healthCheckStop s |}.

Definition with_core (c : option Core) (s : autoSeal) : autoSeal :=
  {| access := access s; barrierSealConfigType := barrierSealConfigType s;
     barrierConfig := barrierConfig s; recoveryConfig := recoveryConfig s;
     core := c; allSealsHealthy := allSealsHealthy s;
     healthCheckStop := healthCheckStop s |}.

Definition with_allSealsHealthy (b : bool) (s : autoSeal) : autoSeal :=
  {| access := access s; barrierSealConfigType := barrierSealConfigType s;
     barrierConfig := barrierConfig s; recoveryConfig := recoveryConfig s;
     core := core s; allSealsHealthy := b;
     healthCheckStop := healthCheckStop s |}.

Definition with_healthCheckStop (b : bool) (s : autoSeal) : autoSeal :=
  {| access := access s; barrierSealConfigType := barrierSealConfigType s;
     barrierConfig := barrierConfig s; recoveryConfig := recoveryConfig s;
     core := core s; allSealsHealthy := allSealsHealthy s;
     healthCheckStop := b |}.

Inductive Event : Type :=
| EvGet (store path : string)
| EvPut (store path : string) (v : bytes)
| EvDelete (store path : string)
| EvEncrypt (pt : bytes)
| EvDecrypt (ct : bytes)
| EvLog (level msg : string)
| EvGauge (seal_name : string) (ms : Z)
| EvTickerReset (interval : Z).

(** Everything a method can read or change: the package's codecs, the
    receiver [d], the heap of configuration objects, the wall clock, the
    interval of the health ticker, and the trace of calls made on
    collaborators (newest first).  [healthCheckStop] is [true] when the
    stop channel is non-nil. *)
Record World : Type := mkWorld {
  pkg : Codec;
  d : autoSeal;
  heap : list SealConfig;
  clock : Z;
  ticker : Z;
  trace : list Event;
}.

(** ** The monad of methods *)

Inductive Outcome (A : Type) : Type :=
| Returned (a : A) (w : World)
| Failed (e : error) (w : World)
| Panicked (msg : string).
Arguments Returned {A} a w.
Arguments Failed {A} e w.
Arguments Panicked {A} msg.

Definition M (A : Type) : Type := World → Outcome A.

#[global] Instance M_ret : MRet M := λ A a w, Returned a w.

#[global] Instance M_bind : MBind M := λ A B f m w,
  match m w with
  | Returned a w' => f a w'
  | Failed e w' => Failed e w'
  | Panicked msg => Panicked msg
  end.

Definition fail_with {A} (e : error) : M A := λ w, Failed e w.
Definition panic {A} (msg : string) : M A := λ _, Panicked msg.
Definition nil_deref : string :=
  "invalid memory address or nil pointer dereference".

(** [if err != nil { return fmt.Errorf(msg + ": %w", err) }] *)
Definition wrapping {A} (msg : string) (m : M A) : M A := λ w,
  match m w with
  | Failed e w' => Failed (Wrapf msg e) w'
  | o => o
  end.

Definition lift {A} (r : result A) : M A :=
  match r with Ok a => mret a | Fail e => fail_with e end.

Definition with_d (x : autoSeal) (w : World) : World :=
  {| pkg := pkg w; d := x; heap := heap w; clock := clock w;
     ticker := ticker w; trace := trace w |}.
Definition with_heap (h : list SealConfig) (w : World) : World :=
  {| pkg := pkg w; d := d w; heap := h; clock := clock w;
     ticker := ticker w; trace := trace w |}.
Definition with_clock (t : Z) (w : World) : World :=
  {| pkg := pkg w; d := d w; heap := heap w; clock := t;
     ticker := ticker w; trace := trace w |}.
Definition with_ticker (t : Z) (w : World) : World :=
  {| pkg := pkg w; d := d w; heap := heap w; clock := clock w;
     ticker := t; trace := trace w |}.
Definition with_trace (t : list Event) (w : World) : World :=
  {| pkg := pkg w; d := d w; heap := heap w; clock := clock w;
     ticker := ticker w; trace := t |}.

Definition get_d : M autoSeal := λ w, Returned (d w) w.
Definition get_pkg : M Codec := λ w, Returned (pkg w) w.
Definition modify_d (f : autoSeal → autoSeal) : M unit := λ w,
  Returned tt (with_d (f (d w)) w).
Definition emit (e : Event) : M unit := λ w,
  Returned tt (with_trace (e :: trace w) w).
Definition logger (level msg : string) : M unit := emit (EvLog level msg).

(** [defer h]: [h] runs when [m] returns, with or without an error. *)
Definition deferring {A} (h : M unit) (m : M A) : M A := λ w,
  match m w with
  | Returned a w' => match h w' with
                     | Returned _ w'' => Returned a w''
                     | Failed e w'' => Failed e w''
                     | Panicked msg => Panicked msg
                     end
  | Failed e w' => match h w' with
                   | Returned _ w'' => Failed e w''
                   | Failed _ w'' => Failed e w''
                   | Panicked msg => Panicked msg
                   end
  | Panicked msg => Panicked msg
  end.

(** [if err != nil { d.logger.Error(msg, ...); return ... }] *)
Definition logged {A} (level msg : string) (m : M A) : M A := λ w,
  match m w with
  | Failed e w' => Failed e (with_trace (EvLog level msg :: trace w') w')
  | o => o
  end.

(** ** The heap of [SealConfig] objects *)

Definition new_SealConfig (c : SealConfig) : M ptr := λ w,
  Returned (Some (length (heap w))) (with_heap (heap w ++ [c]) w).

(** Reading through a pointer; a nil pointer panics. *)
Definition load (p : ptr) : M SealConfig := λ w,
  match p with
  | None => Panicked nil_deref
  | Some a => match heap w !! a with
              | Some c => Returned c w
              | None => Panicked "no object at this address"
              end
  end.

(** [conf.Type = t] *)
Definition store_Type (p : ptr) (t : string) : M unit := λ w,
  match p with
  | None => Panicked nil_deref
  | Some a => match heap w !! a with
              | Some c => Returned tt (with_heap (<[a := set_Type t c]> (heap w)) w)
              | None => Panicked "no object at this address"
              end
  end.

(** [conf.Clone()]: a fresh object with the same fields. *)
Definition Clone (p : ptr) : M ptr := c ← load p; new_SealConfig c.

(** ** Storage and backend calls *)

(** [d.core]: dereferencing it panics while no core is bound. *)
Definition deref_core : M Core := λ w,
  match core (d w) with
  | Some c => Returned c w
  | None => Panicked nil_deref
  end.

Definition Get (b : Backend) (path : string) : result (option Entry) :=
  match faults b (OpGet path) with
  | Some e => Fail e
  | None => Ok (mkEntry path <$> kv b !! path)
  end.

Definition Put (b : Backend) (e : Entry) : result Backend :=
  match faults b (OpPut (Key e)) with
  | Some err => Fail err
  | None => Ok (with_kv (<[Key e := Value e]> (kv b)) b)
  end.

Definition Delete (b : Backend) (path : string) : result Backend :=
  match faults b (OpDelete path) with
  | Some err => Fail err
  | None => Ok (with_kv (delete path (kv b)) b)
  end.

(** [d.core.physical.Get(ctx, path)] *)
Definition physical_Get (path : string) : M (option Entry) :=
  c ← deref_core;
  emit (EvGet "physical" path);;
  lift (Get (physical c) path).

(** [d.core.physical.Put(ctx, e)] *)
Definition physical_Put (e : Entry) : M unit :=
  c ← deref_core;
  emit (EvPut "physical" (Key e) (Value e));;
  b ← lift (Put (physical c) e);
  modify_d (with_core (Some (with_physical b c))).

(** [d.core.barrier.Get(ctx, path)] *)
Definition barrier_Get (path : string) : M (option Entry) :=
  c ← deref_core;
  emit (EvGet "barrier" path);;
  lift (Get (barrier c) path).

(** [d.core.barrier.Delete(ctx, path)] *)
Definition barrier_Delete (path : string) : M unit :=
  c ← deref_core;
  emit (EvDelete "barrier" path);;
  b ← lift (Delete (barrier c) path);
  modify_d (with_core (Some (with_barrier b c))).

(** [d.Access.Encrypt]: each call draws fresh randomness. *)
Definition access_Encrypt (pt : bytes) : M bytes :=
  s ← get_d;
  emit (EvEncrypt pt);;
  modify_d (with_access (with_encryptions (S (encryptions (access s))) (access s)));;
  lift (Encrypt (access s) (encryptions (access s)) pt).

(** [d.Access.Decrypt] *)
Definition access_Decrypt (ct : bytes) : M bytes :=
  s ← get_d;
  emit (EvDecrypt ct);;
  lift (Decrypt (access s) ct).

(** [d.Access.IsUpToDate(ctx, value, true)] *)
Definition access_IsUpToDate (v : bytes) : M bool :=
  s ← get_d; lift (IsUpToDate (access s) v true).

(** ** Helpers of the package that live outside the sources at hand *)

(** Modelled from the spec: [SealWrapRecoveryKey] wraps the key with the
    backend and yields the entry for the fixed recovery-key path. *)
Definition SealWrapRecoveryKey (key : bytes) : M Entry :=
  blob ← access_Encrypt key;
  mret {| Key := recoveryKeyPath; Value := blob |}.

(** Modelled from the spec: [UnsealWrapRecoveryKey] unwraps the value of a
    stored entry with the backend. *)
Definition UnsealWrapRecoveryKey (pe : Entry) : M bytes :=
  access_Decrypt (Value pe).

(** Modelled from the spec: [writeStoredKeys] wraps the key shares and
    persists them at the fixed stored-keys path. *)
Definition writeStoredKeys (keys : list bytes) : M unit :=
  k ← get_pkg;
  blob ← wrapping "failed to encrypt keys for storage"
           (access_Encrypt (encodeKeys k keys));
  wrapping "failed to write keys to storage"
    (physical_Put {| Key := StoredBarrierKeysPath; Value := blob |}).

(** Modelled from the spec: [UnsealWrapStoredBarrierKeys] unwraps a stored
    entry into the key shares. *)
Definition UnsealWrapStoredBarrierKeys (pe : Entry) : M (list bytes) :=
  k ← get_pkg;
  pt ← wrapping "failed to decrypt encrypted stored keys"
         (access_Decrypt (Value pe));
  wrapping "failed to decode stored keys" (lift (decodeKeys k pt)).

(** Modelled from the spec: [readStoredKeys] reads the stored-keys entry
    and unwraps it; a missing entry is an error. *)
Definition readStoredKeys : M (list bytes) :=
  pe ← wrapping "failed to fetch stored keys" (physical_Get StoredBarrierKeysPath);
  match pe with
  | None => fail_with (Errorf "stored keys not found")
  | Some pe => UnsealWrapStoredBarrierKeys pe
  end.

(** Modelled from the spec: the core's readers of a seal configuration
    fetch the entry at a fixed path and decode it into a fresh object; no
    entry gives nil. *)
Definition read_config (get : string → M (option Entry)) (path : string) : M ptr :=
  k ← get_pkg;
  pe ← wrapping "failed to fetch seal configuration" (get path);
  match pe with
  | None => mret None
  | Some pe =>
      c ← wrapping "failed to decode seal configuration"
            (lift (decodeConfig k (Value pe)));
      new_SealConfig c
  end.

(** Modelled from the spec: the core's writers of a seal configuration
    encode it and put it at a fixed path. *)
Definition write_config (path : string) (conf : ptr) : M unit :=
  k ← get_pkg;
  c ← load conf;
  wrapping "failed to write seal configuration"
    (physical_Put {| Key := path; Value := encodeConfig k c |}).

(** Modelled from the spec: [Core.PhysicalBarrierSealConfig] reads the
    configuration at the barrier-seal-config path. *)
Definition PhysicalBarrierSealConfig : M ptr :=
  deref_core;; read_config physical_Get barrierSealConfigPath.

(** Modelled from the spec: [Core.SetPhysicalBarrierSealConfig] persists
    the configuration at the barrier-seal-config path. *)
Definition SetPhysicalBarrierSealConfig (conf : ptr) : M unit :=
  deref_core;; write_config barrierSealConfigPath conf.

(** Modelled from the spec: [Core.PhysicalRecoverySealConfig] reads the
    configuration at the plaintext recovery-config path. *)
Definition PhysicalRecoverySealConfig : M ptr :=
  deref_core;; read_config physical_Get recoverySealConfigPlaintextPath.

(** Modelled from the spec: [Core.PhysicalRecoverySealConfigOldPath] reads
    the configuration at the legacy, barrier-protected path. *)
Definition PhysicalRecoverySealConfigOldPath : M ptr :=
  deref_core;; read_config barrier_Get recoverySealConfigPath.

(** Modelled from the spec: [Core.SetPhysicalRecoverySealConfig] persists
    the configuration at the plaintext recovery-config path. *)
Definition SetPhysicalRecoverySealConfig (conf : ptr) : M unit :=
  deref_core;; write_config recoverySealConfigPlaintextPath conf.

(** [d.core.Sealed()] *)
Definition Sealed : M bool := c ← deref_core; mret (sealed c).

(** ** The manager's methods *)

Definition index_out_of_range : string := "index out of range [0] with length 0".

(** [NewAutoSeal]: the left injection is the panic of [Seals[0]] on an
    empty list. *)
Definition NewAutoSeal (lowLevel : Access) : string + autoSeal :=
  let ret := {| access := lowLevel; barrierSealConfigType := "";
                barrierConfig := None; recoveryConfig := None; core := None;
                allSealsHealthy := false; healthCheckStop := false |} in
  if bool_decide (1 < length (Seals lowLevel))%nat then
    inr (with_barrierSealConfigType SealConfigTypeMultiseal ret)
  else
    match Seals lowLevel !! 0%nat with
    | Some k => inr (with_barrierSealConfigType (kms_Type k) ret)
    | None => inl index_out_of_range
    end.

Definition Healthy : M bool := s ← get_d; mret (allSealsHealthy s).

Definition SealWrapable : M bool := mret true.

Definition GetAccess : M Access := s ← get_d; mret (access s).

Definition checkCore : M unit :=
  s ← get_d;
  match core s with
  | None => fail_with (Errorf "seal does not have a core set")
  | Some _ => mret tt
  end.

Definition SetCore (c : Core) : M unit := modify_d (with_core (Some c)).

Definition BarrierSealConfigType : M SealConfigType :=
  s ← get_d; mret (barrierSealConfigType s).

Definition RecoveryKeySupported : M bool := mret true.

Definition SetStoredKeys (keys : list bytes) : M unit :=
  deref_core;; writeStoredKeys keys.

Definition GetStoredKeys : M (list bytes) :=
  deref_core;; readStoredKeys.

Definition upgradeStoredKeys : M unit :=
  pe ← wrapping "failed to fetch stored keys" (physical_Get StoredBarrierKeysPath);
  match pe with
  | None => fail_with (Errorf "no stored keys found")
  | Some pe =>
      k ← get_pkg;
      wrappedEntryValue ← wrapping "failed to unmarshal stored keys"
                            (lift (UnmarshalSealWrappedValue k (Value pe)));
      uptodate ← wrapping "failed to check if stored keys are up-to-date"
                   (access_IsUpToDate wrappedEntryValue);
      if negb uptodate then
        logger "info" "upgrading stored keys";;
        keys ← wrapping "failed to decrypt encrypted stored keys"
                 (UnsealWrapStoredBarrierKeys pe);
        wrapping "failed to save upgraded stored keys" (SetStoredKeys keys)
      else mret tt
  end.

Definition SetCachedBarrierConfig (config : ptr) : M unit :=
  modify_d (with_barrierConfig config).

Definition quoted (s : string) : string :=
  let q := String (Ascii.ascii_of_nat 34) EmptyString in q +:+ s +:+ q.

Definition BarrierConfig : M ptr :=
  s ← get_d;
  match barrierConfig s with
  | Some a => Clone (Some a)
  | None =>
      checkCore;;
      conf ← logged "error" "failed to read seal configuration"
               (wrapping "failed to read seal configuration"
                  PhysicalBarrierSealConfig);
      match conf with
      | None =>
          logger "info" "seal configuration missing, not initialized";;
          mret None
      | Some a =>
          (* barrierTypeUpgradeCheck does nothing here *)
          c ← load conf;
          if bool_decide (Type_ c ≠ barrierSealConfigType s) then
            logger "error" "barrier seal type does not match loaded type";;
            fail_with (Errorf ("barrier seal type of " +:+ quoted (Type_ c)
                               +:+ " does not match loaded type of "
                               +:+ quoted (barrierSealConfigType s)))
          else
            SetCachedBarrierConfig conf;;
            Clone conf
      end
  end.

Definition SetBarrierConfig (conf : ptr) : M unit :=
  checkCore;;
  match conf with
  | None => modify_d (with_barrierConfig None)
  | Some _ =>
      s ← get_d;
      store_Type conf (barrierSealConfigType s);;
      SetPhysicalBarrierSealConfig conf;;
      clone ← Clone conf;
      SetCachedBarrierConfig clone
  end.

Definition ClearBarrierConfig : M unit := SetBarrierConfig None.

Definition RecoverySealConfigType : SealConfigType := SealConfigTypeRecovery.

(** How a block of statements ends: with a [return], or by running off
    its end into the statements after it. *)
Inductive Flow (A : Type) : Type :=
| Return (a : A)
| FallThrough.
Arguments Return {A} a.
Arguments FallThrough {A}.

Definition RecoveryConfig : M ptr :=
  s ← get_d;
  match recoveryConfig s with
  | Some a => Clone (Some a)
  | None =>
      checkCore;;
      conf ← logged "error" "failed to read recovery seal configuration"
               (wrapping "failed to read recovery seal configuration"
                  PhysicalRecoverySealConfig);
      (* if conf == nil { ... }: the block's [conf, err := ...] declares
         variables of its own, which end with the block *)
      block ← match conf with
              | None =>
                  is_sealed ← Sealed;
                  if (is_sealed : bool) then
                    logger "info" "recovery seal configuration missing, but cannot check old path as core is sealed";;
                    mret (Return None)
                  else
                    conf' ← wrapping "failed to read old recovery seal configuration"
                              PhysicalRecoverySealConfigOldPath;
                    match conf' with
                    | None =>
                        logger "info" "recovery seal configuration missing, not initialized";;
                        mret (Return None)
                    | Some _ => mret FallThrough
                    end
              | Some _ => mret FallThrough
              end;
      match block with
      | Return r => mret r
      | FallThrough =>
          c ← load conf;
          if negb (IsSameAs RecoverySealConfigType (Type_ c)) then
            logger "error" "recovery seal type does not match loaded type";;
            fail_with (Errorf ("recovery seal type of " +:+ quoted (Type_ c)
                               +:+ " does not match loaded type of "
                               +:+ quoted RecoverySealConfigType))
          else
            modify_d (with_recoveryConfig conf);;
            Clone conf
      end
  end.

Definition migrateRecoveryConfig : M unit :=
  be ← wrapping "failed to read old recovery seal configuration during migration"
         (barrier_Get recoverySealConfigPath);
  match be with
  | None => mret tt
  | Some be =>
      logger "debug" "migrating recovery seal configuration";;
      deferring (logger "debug" "done migrating recovery seal configuration")
        (let pe := {| Key := recoverySealConfigPlaintextPath; Value := Value be |} in
         wrapping "failed to write recovery seal configuration during migration"
           (physical_Put pe);;
         wrapping "failed to delete old recovery seal configuration during migration"
           (barrier_Delete recoverySealConfigPath))
  end.

Definition SetRecoveryConfig (conf : ptr) : M unit :=
  checkCore;;
  migrateRecoveryConfig;;
  match conf with
  | None => modify_d (with_recoveryConfig None)
  | Some _ =>
      store_Type conf RecoverySealConfigType;;
      logged "error" "failed to write recovery seal configuration"
        (wrapping "failed to write recovery seal configuration"
           (SetPhysicalRecoverySealConfig conf));;
      clone ← Clone conf;
      modify_d (with_recoveryConfig clone)
  end.

Definition ClearRecoveryConfig : M unit := SetRecoveryConfig None.

Definition SetCachedRecoveryConfig (config : ptr) : M unit :=
  modify_d (with_recoveryConfig config).

(** *** The recovery key *)

Definition byte_val (b : byte) : Z := Z.of_N (Byte.to_N b).

(** [subtle.ConstantTimeByteEq] of the Go library:
    [int((uint32(x^y) - 1) >> 31)]. *)
Definition ConstantTimeByteEq (x y : Z) : Z :=
  Z.shiftr ((Z.lxor x y - 1) mod 2 ^ 32) 31.

(** The loop [v |= x[i] ^ y[i]] over slices of equal length. *)
Fixpoint or_xor (v : Z) (x y : bytes) : Z :=
  match x, y with
  | a :: x', b :: y' => or_xor (Z.lor v (Z.lxor (byte_val a) (byte_val b))) x' y'
  | _, _ => v
  end.

(** [subtle.ConstantTimeCompare] of the Go library. *)
Definition ConstantTimeCompare (x y : bytes) : Z :=
  if bool_decide (length x ≠ length y) then 0
  else ConstantTimeByteEq (or_xor 0 x y) 0.

Definition getRecoveryKeyInternal : M bytes :=
  pe ← logged "error" "failed to read recovery key"
         (wrapping "failed to read recovery key" (physical_Get recoveryKeyPath));
  match pe with
  | None =>
      logger "warn" "no recovery key found";;
      fail_with (Errorf "no recovery key found")
  | Some pe =>
      wrapping "failed to decrypt encrypted stored keys" (UnsealWrapRecoveryKey pe)
  end.

Definition VerifyRecoveryKey (key : option bytes) : M unit :=
  match key with
  | None => fail_with (Errorf "recovery key to verify is nil")
  | Some key =>
      pt ← getRecoveryKeyInternal;
      if bool_decide (ConstantTimeCompare key pt ≠ 1) then
        fail_with (Errorf "recovery key does not match submitted values")
      else mret tt
  end.

Definition SetRecoveryKey (key : option bytes) : M unit :=
  checkCore;;
  match key with
  | None => fail_with (Errorf "recovery key to store is nil")
  | Some key =>
      be ← wrapping "failed to encrypt keys for storage" (SealWrapRecoveryKey key);
      logged "error" "failed to write recovery key"
        (wrapping "failed to write recovery key" (physical_Put be))
  end.

Definition RecoveryKey : M bytes := getRecoveryKeyInternal.

Definition upgradeRecoveryKey : M unit :=
  pe ← wrapping "failed to fetch recovery key" (physical_Get recoveryKeyPath);
  match pe with
  | None => fail_with (Errorf "no recovery key found")
  | Some pe =>
      k ← get_pkg;
      wrappedEntryValue ← wrapping "failed to unmarshal recovery key"
                            (lift (UnmarshalSealWrappedValue k (Value pe)));
      uptodate ← wrapping "failed to check if recovery key is up-to-date"
                   (access_IsUpToDate wrappedEntryValue);
      if negb uptodate then
        logger "info" "upgrading recovery key";;
        pt ← wrapping "failed to decrypt recovery key" (UnsealWrapRecoveryKey pe);
        (* the model's Decrypt yields a non-nil slice *)
        wrapping "failed to save upgraded recovery key" (SetRecoveryKey (Some pt))
      else mret tt
  end.

Definition UpgradeKeys : M unit :=
  upgradeRecoveryKey;;
  upgradeStoredKeys.

(** *** The health check *)

(** [time.Duration] values, in nanoseconds. *)
Definition minute : Z := 60 * 1000000000.
Definition sealHealthTestIntervalNominal : Z := 10 * minute.
Definition sealHealthTestIntervalUnhealthy : Z := 1 * minute.
Definition sealHealthTestTimeout : Z := 1 * minute.

(** [time.Now()]: the clock is read and moves on. *)
Definition time_Now : M Z := λ w, Returned (clock w) (with_clock (clock w + 1) w).

(** [time.NewTicker(interval)] *)
Definition NewTicker (interval : Z) : M unit := λ w,
  Returned tt (with_ticker interval w).

(** [healthCheck.Reset(interval)] *)
Definition ticker_Reset (interval : Z) : M unit := λ w,
  Returned tt (with_ticker interval (with_trace (EvTickerReset interval :: trace w) w)).

(** The [i]-th element of [d.Access.GetAllSealInfoByPriority()]; the list
    holds pointers, so a change to [w] is a change in place. *)
Definition seal_at (i : nat) : M SealInfo := λ w,
  match SealInfos (access (d w)) !! i with
  | Some x => Returned x w
  | None => Panicked "index out of range"
  end.

Definition update_seal (i : nat) (f : SealInfo → SealInfo) : M unit :=
  modify_d (λ s, with_access (with_SealInfos (alter f i (SealInfos (access s))) (access s)) s).

Definition set_Healthy (b : bool) (x : SealInfo) : SealInfo :=
  {| Name := Name x; Priority := Priority x; Healthy_ := b;
     LastSeenHealthy := LastSeenHealthy x; LastHealthCheck := LastHealthCheck x;
     w_Encrypt := w_Encrypt x; w_Decrypt := w_Decrypt x |}.

Definition set_LastSeenHealthy (t : Z) (x : SealInfo) : SealInfo :=
  {| Name := Name x; Priority := Priority x; Healthy_ := Healthy_ x;
     LastSeenHealthy := t; LastHealthCheck := LastHealthCheck x;
     w_Encrypt := w_Encrypt x; w_Decrypt := w_Decrypt x |}.

Definition set_LastHealthCheck (t : Z) (x : SealInfo) : SealInfo :=
  {| Name := Name x; Priority := Priority x; Healthy_ := Healthy_ x;
     LastSeenHealthy := LastSeenHealthy x; LastHealthCheck := t;
     w_Encrypt := w_Encrypt x; w_Decrypt := w_Decrypt x |}.

(** [d.core.MetricSink().SetGaugeWithLabels(autoSealUnavailableDuration, ms, labels)];
    the conversion to [float32] is left out. *)
Definition SetGauge (seal_name : string) (ms : Z) : M unit :=
  deref_core;; emit (EvGauge seal_name ms).

(** The closure [fail] of one probe of the backend at index [i]. *)
Definition fail (i : nat) (msg : string) : M unit :=
  logger "warn" msg;;
  w ← seal_at i;
  (if Healthy_ w then ticker_Reset sealHealthTestIntervalUnhealthy else mret tt);;
  update_seal i (set_Healthy false);;
  now ← time_Now;
  SetGauge (Name w) ((now - LastSeenHealthy w) `div` 1000000).

(** The body of the loop over the backends: one probe, given the current
    value of [anyUnhealthy], returns its new value. *)
Definition probe (t : Z) (testVal : bytes) (i : nat) (anyUnhealthy : bool) : M bool :=
  w ← seal_at i;
  let encrypted := w_Encrypt w testVal in
  checkTime ← time_Now;
  update_seal i (set_LastHealthCheck checkTime);;
  match encrypted with
  | Fail _ =>
      fail i "failed to encrypt seal health test value, seal backend may be unreachable";;
      mret true
  | Ok ciphertext =>
      let '(plaintext, err) := w_Decrypt w ciphertext in
      match err with
      | Some _ => fail i "failed to decrypt seal health test value, seal backend may be unreachable"
      | None => mret tt
      end;;
      if negb (bytes_Equal testVal plaintext) then
        fail i "seal health test value failed to decrypt to expected value";;
        mret anyUnhealthy
      else
        logger "debug" "seal health test passed";;
        w' ← seal_at i;
        (if negb (Healthy_ w') then
           logger "info" "seal backend is now healthy again";;
           ticker_Reset sealHealthTestIntervalNominal
         else mret tt);;
        update_seal i (set_Healthy true);;
        update_seal i (set_LastSeenHealthy checkTime);;
        SetGauge (Name w) 0;;
        mret anyUnhealthy
  end.

Fixpoint for_each (body : nat → bool → M bool) (indices : list nat) (acc : bool) : M bool :=
  match indices with
  | [] => mret acc
  | i :: rest => acc' ← body i acc; for_each body rest acc'
  end.

(** [testVal := fmt.Sprintf("Heartbeat %d", n)] *)
Definition heartbeat (n : nat) : bytes :=
  String.list_byte_of_string ("Heartbeat " +:+ pretty n).

(** The closure [check] that the health loop runs at each tick [t]; [n] is
    the value drawn from [mathrand.Intn(1000)]. *)
Definition check (t : Z) (n : nat) : M unit :=
  let testVal := heartbeat n in
  s ← get_d;
  anyUnhealthy ← for_each (probe t testVal)
                   (seq 0 (length (SealInfos (access s)))) false;
  modify_d (with_allSealsHealthy (negb anyUnhealthy)).

Definition StopHealthCheck : M unit :=
  s ← get_d;
  if healthCheckStop s then modify_d (with_healthCheckStop false) else mret tt.

(** [StartHealthCheck] up to the start of the goroutine, whose ticks are
    calls of [check]. *)
Definition StartHealthCheck : M unit :=
  StopHealthCheck;;
  NewTicker sealHealthTestIntervalNominal;;
  modify_d (with_healthCheckStop true);;
  deref_core;;
  mret tt.

(** ** Callers *)

(** The calls a server can make on the manager; [Tick] is one firing of the
    health loop's ticker. *)
Inductive Call : Type :=
| CallHealthy
| CallSealWrapable
| CallGetAccess
| CallSetCore (c : Core)
| CallBarrierSealConfigType
| CallRecoveryKeySupported
| CallSetStoredKeys (keys : list bytes)
| CallGetStoredKeys
| CallUpgradeKeys
| CallBarrierConfig
| CallClearBarrierConfig
| CallSetBarrierConfig (conf : ptr)
| CallSetCachedBarrierConfig (config : ptr)
| CallRecoveryConfig
| CallClearRecoveryConfig
| CallSetRecoveryConfig (conf : ptr)
| CallSetCachedRecoveryConfig (config : ptr)
| CallVerifyRecoveryKey (key : option bytes)
| CallSetRecoveryKey (key : option bytes)
| CallRecoveryKey
| CallStartHealthCheck
| CallStopHealthCheck
| Tick (t : Z) (n : nat).

Definition is_Tick (c : Call) : bool :=
  match c with Tick _ _ => true | _ => false end.

(** The effect of a call on the world; its result is dropped. *)
Definition call (c : Call) : M unit :=
  match c with
  | CallHealthy => Healthy;; mret tt
  | CallSealWrapable => SealWrapable;; mret tt
  | CallGetAccess => GetAccess;; mret tt
  | CallSetCore c => SetCore c
  | CallBarrierSealConfigType => BarrierSealConfigType;; mret tt
  | CallRecoveryKeySupported => RecoveryKeySupported;; mret tt
  | CallSetStoredKeys keys => SetStoredKeys keys
  | CallGetStoredKeys => GetStoredKeys;; mret tt
  | CallUpgradeKeys => UpgradeKeys
  | CallBarrierConfig => BarrierConfig;; mret tt
  | CallClearBarrierConfig => ClearBarrierConfig
  | CallSetBarrierConfig conf => SetBarrierConfig conf
  | CallSetCachedBarrierConfig config => SetCachedBarrierConfig config
  | CallRecoveryConfig => RecoveryConfig;; mret tt
  | CallClearRecoveryConfig => ClearRecoveryConfig
  | CallSetRecoveryConfig conf => SetRecoveryConfig conf
  | CallSetCachedRecoveryConfig config => SetCachedRecoveryConfig config
  | CallVerifyRecoveryKey key => VerifyRecoveryKey key
  | CallSetRecoveryKey key => SetRecoveryKey key
  | CallRecoveryKey => RecoveryKey;; mret tt
  | CallStartHealthCheck => StartHealthCheck
  | CallStopHealthCheck => StopHealthCheck
  | Tick t n => check t n
  end.

(** A run of calls: an error goes back to the caller and the run goes on;
    a panic ends it. *)
Fixpoint run (cs : list Call) (w : World) : option World :=
  match cs with
  | [] => Some w
  | c :: rest =>
      match call c w with
      | Returned _ w' => run rest w'
      | Failed _ w' => run rest w'
      | Panicked _ => None
      end
  end.

(** The world right after [NewAutoSeal]. *)
Definition fresh_world (k : Codec) (s : autoSeal) : World :=
  {| pkg := k; d := s; heap := []; clock := 0;
     ticker := sealHealthTestIntervalNominal; trace := [] |}.

(** ** Sample collaborators, used to run the methods on concrete inputs *)

Module Sample.

Definition codec : Codec :=
  {| UnmarshalSealWrappedValue := λ b, Ok b;
     encodeKeys := λ keys, mjoin keys;
     decodeKeys := λ b, Ok [b];
     encodeConfig := λ c, String.list_byte_of_string (Type_ c);
     decodeConfig := λ b, Ok (mkSealConfig (String.string_of_list_byte b) 5 3 1) |}.

(** A backend that prefixes the plaintext with a key version. *)
Definition tag : byte := x01.

Definition seal_ok : SealInfo :=
  {| Name := "transit-1"; Priority := 1; Healthy_ := true;
     LastSeenHealthy := 0; LastHealthCheck := 0;
     w_Encrypt := λ pt, Ok (tag :: pt);
     w_Decrypt := λ ct, (tail ct, None) |}.

(** A backend whose encrypt works and whose decrypt is unreachable. *)
Definition seal_no_decrypt : SealInfo :=
  {| Name := "transit-2"; Priority := 2; Healthy_ := true;
     LastSeenHealthy := 0; LastHealthCheck := 0;
     w_Encrypt := λ pt, Ok (tag :: pt);
     w_Decrypt := λ ct, ([], Some (Errorf "connection refused")) |}.

(** A backend that decrypts to something else. *)
Definition seal_garbles : SealInfo :=
  {| Name := "transit-3"; Priority := 3; Healthy_ := true;
     LastSeenHealthy := 0; LastHealthCheck := 0;
     w_Encrypt := λ pt, Ok (tag :: pt);
     w_Decrypt := λ ct, (ct, None) |}.

Definition lowLevel (infos : list SealInfo) : Access :=
  {| Seals := (λ x, mkKMS "transit" (Name x)) <$> infos;
     SealInfos := infos;
     Encrypt := λ _ pt, Ok (tag :: pt);
     Decrypt := λ ct, match ct with
                      | [] => Fail (Errorf "short ciphertext")
                      | _ :: pt => Ok pt
                      end;
     IsUpToDate := λ v _, Ok (bool_decide (head v = Some tag));
     encryptions := 0 |}.

Definition store (l : list (string * bytes)) : Backend :=
  {| kv := list_to_map l; faults := λ _, None |}.

Definition server (phys legacy : list (string * bytes)) (is_sealed : bool) : Core :=
  {| physical := store phys; barrier := store legacy; sealed := is_sealed |}.

Definition manager (infos : list SealInfo) (c : option Core) : autoSeal :=
  match NewAutoSeal (lowLevel infos) with
  | inr s => with_core c s
  | inl _ => with_core c
               {| access := lowLevel infos; barrierSealConfigType := "";
                  barrierConfig := None; recoveryConfig := None; core := None;
                  allSealsHealthy := false; healthCheckStop := false |}
  end.

Definition world (infos : list SealInfo) (c : option Core) : World :=
  fresh_world codec (manager infos c).

Definition recovery_bytes : bytes := String.list_byte_of_string "recovery".

(** An unsealed server that holds a recovery configuration at the legacy
    path only. *)
Definition legacy_server : Core :=
  server [] [(recoverySealConfigPath, recovery_bytes)] false.

Definition legacy_world : World := world [seal_ok] (Some legacy_server).

(** A bound manager over an empty store. *)
Definition empty_server : Core := server [] [] false.
Definition bound_world : World := world [seal_ok] (Some empty_server).

(** A caller that holds one configuration object. *)
Definition callers_config : SealConfig := mkSealConfig "shamir" 5 3 1.
Definition caller_world : World := with_heap [callers_config] bound_world.

(** A server whose recovery key and stored keys are wrapped under the
    current key version. *)
Definition current_server : Core :=
  server [(recoveryKeyPath, [tag; x2a]); (StoredBarrierKeysPath, [tag; x07])] [] false.
Definition current_world : World := world [seal_ok] (Some current_server).

Definition stored_key : bytes := [x2a].
Definition key_set_world : World :=
  default bound_world (run [CallSetRecoveryKey (Some stored_key)] bound_world).

(** A bound manager whose only backend encrypts but cannot decrypt. *)
Definition no_decrypt_world : World := world [seal_no_decrypt] (Some empty_server).

(** A bound manager whose store refuses every write, and a caller
    holding one configuration object. *)
Definition read_only_server : Core :=
  {| physical := {| kv := ∅;
                    faults := λ op, match op with
                                    | OpPut _ => Some (Errorf "read-only storage")
                                    | _ => None
                                    end |};
     barrier := store []; sealed := false |}.
Definition read_only_world : World :=
  with_heap [callers_config] (world [seal_ok] (Some read_only_server)).

(** The world a run of calls ends in ([w] itself after a panic). *)
Definition after (cs : list Call) (w : World) : World :=
  default w (run cs w).

Definition two_seals : list SealInfo := [seal_ok; seal_garbles].

Definition startup : list Call :=
  [CallSetCore (server [] [] false); CallStartHealthCheck;
   CallBarrierConfig; CallSetBarrierConfig None].

End Sample.

(** ** Specifications of methods *)

(** [respects R Q m]: whenever [m] returns or fails, the world it leaves
    is related by [R] to the one it started in, and a returned value
    satisfies [Q]. *)
Definition respects (R : relation World) {A} (Q : A → Prop) (m : M A) : Prop :=
  ∀ w, match m w with
       | Returned a w' => R w w' ∧ Q a
       | Failed _ w' => R w w'
       | Panicked _ => True
       end.

(** The relations between the world before and after a method that the
    statements below use. *)
Definition same_type : relation World := λ w w',
  barrierSealConfigType (d w') = barrierSealConfigType (d w).

Definition same_health_flag : relation World := λ w w',
  allSealsHealthy (d w') = allSealsHealthy (d w).

(** The error of [checkCore]. *)
Definition no_core_error : error := Errorf "seal does not have a core set".

(** A world with more collaborator calls on its trace. *)
Definition traced (evs : list Event) (w : World) : World :=
  with_trace (evs ++ trace w) w.

(** A method that keeps the heap as it is and a bound core bound. *)
Definition same_heap : relation World := λ w w',
  heap w' = heap w ∧ (is_Some (core (d w)) → is_Some (core (d w'))).

(** What a call leaves in the caller's configuration object at address
    [a]: [stamped_after o a c] when the call neither panics nor leaves
    anything but [c] there. *)
Definition stamped_after {A} (o : Outcome A) (a : nat) (c : SealConfig) : Prop :=
  match o with
  | Returned _ w' => heap w' !! a = Some c
  | Failed _ w' => heap w' !! a = Some c
  | Panicked _ => False
  end.

(** The entry at [path] is there, decodes, and the backend reports it as
    wrapped under its current key version. *)
Definition up_to_date (w : World) (path : string) : Prop :=
  ∃ c v val,
    core (d w) = Some c ∧
    Get (physical c) path = Ok (Some (mkEntry path v)) ∧
    UnmarshalSealWrappedValue (pkg w) v = Ok val ∧
    IsUpToDate (access (d w)) val true = Ok true.

(** The two reads an upgrade of up-to-date keys makes (newest first). *)
Definition upgrade_reads : list Event :=
  [EvGet "physical" StoredBarrierKeysPath; EvGet "physical" recoveryKeyPath].

(** The persisted stored-keys value, when a core is bound. *)
Definition stored_keys_entry (w : World) : option (option bytes) :=
  (λ c, kv (physical c) !! StoredBarrierKeysPath) <$> core (d w).

(** Events of the stored-keys upgrade: any access to the stored-keys path
    and the announcement of the upgrade. *)
Definition touches_stored_keys (e : Event) : bool :=
  match e with
  | EvGet _ p => bool_decide (p = StoredBarrierKeysPath)
  | EvPut _ p _ => bool_decide (p = StoredBarrierKeysPath)
  | EvDelete _ p => bool_decide (p = StoredBarrierKeysPath)
  | EvLog _ msg => bool_decide (msg = "upgrading stored keys")
  | _ => false
  end.

(** The stored keys were neither changed nor accessed between [w] and
    [w']. *)
Definition stored_keys_untouched : relation World := λ w w',
  stored_keys_entry w' = stored_keys_entry w ∧
  ∃ evs, trace w' = evs ++ trace w ∧
         Forall (λ e, touches_stored_keys e = false) evs.

(** The backend can unwrap what it wrapped. *)
Definition unwraps_own_wraps (a : Access) : Prop :=
  ∀ n pt blob, Encrypt a n pt = Ok blob → Decrypt a blob = Ok pt.

(** Reads of the recovery-key path are not refused by the store. *)
Definition recovery_key_readable (w : World) : Prop :=
  ∀ c, core (d w) = Some c → faults (physical c) (OpGet recoveryKeyPath) = None.

Definition mismatch_error : error :=
  Errorf "recovery key does not match submitted values".

(** ** What one probe decides *)

(** The backend's encrypt refuses the test value. *)
Definition encrypt_fails (testVal : bytes) (x : SealInfo) : bool :=
  match w_Encrypt x testVal with Fail _ => true | Ok _ => false end.

(** The backend encrypts the test value and decrypts it back to itself
    (whatever error its decrypt reports besides). *)
Definition round_trips (testVal : bytes) (x : SealInfo) : bool :=
  match w_Encrypt x testVal with
  | Fail _ => false
  | Ok ciphertext => bytes_Equal testVal (fst (w_Decrypt x ciphertext))
  end.

(** [x'] is the backend [x] after a probe with [testVal]. *)
Definition probed (testVal : bytes) (x x' : SealInfo) : Prop :=
  Healthy_ x' = round_trips testVal x ∧
  Name x' = Name x ∧
  w_Encrypt x' = w_Encrypt x ∧
  w_Decrypt x' = w_Decrypt x.

(** * Further properties of the manager: definitions *)

(** Calls on the storage engine and on the seal backend's wrap and unwrap,
    as opposed to logs, gauges and ticker resets. *)
Definition is_storage_or_crypto (e : Event) : bool :=
  match e with
  | EvGet _ _ | EvPut _ _ _ | EvDelete _ _ | EvEncrypt _ | EvDecrypt _ => true
  | _ => false
  end.

(** Between [w] and [w'] only the health state moved: the core and its
    stores, the two configuration caches, the heap of configurations and the
    stop channel are the same, and no call went to storage or to the
    backend's wrap and unwrap. *)
Definition only_health_state : relation World := λ w w',
  core (d w') = core (d w) ∧
  barrierConfig (d w') = barrierConfig (d w) ∧
  recoveryConfig (d w') = recoveryConfig (d w) ∧
  healthCheckStop (d w') = healthCheckStop (d w) ∧
  heap w' = heap w ∧
  ∃ evs, trace w' = evs ++ trace w ∧
         Forall (λ e, is_storage_or_crypto e = false) evs.

(** The per-backend health snapshots are the same in [w] and [w']. *)
Definition same_seal_infos : relation World := λ w w',
  SealInfos (access (d w')) = SealInfos (access (d w)).

(** The error of BarrierConfig when the stored type is not the manager's. *)
Definition barrier_type_mismatch (stored loaded : string) : error :=
  Errorf ("barrier seal type of " +:+ quoted stored
          +:+ " does not match loaded type of " +:+ quoted loaded).


(** The same world bound to another core, or to none. *)
Definition rebound (c : option Core) (w : World) : World :=
  with_d (with_core c (d w)) w.

(** The caller overwrites the object it holds at address [a]. *)
Definition caller_writes (a : nat) (c : SealConfig) (w : World) : World :=
  with_heap (<[a := c]> (heap w)) w.

(** Further sample worlds. *)
Module Sample2.

(** A bound manager whose barrier cache holds the caller-visible object at
    address 0. *)
Definition cached_world : World :=
  with_d (with_barrierConfig (Some 0%nat) (d Sample.caller_world)) Sample.caller_world.

Definition shamir_bytes : bytes := String.list_byte_of_string "shamir".


(** A server that holds a barrier configuration of another type. *)
Definition foreign_server : Core :=
  Sample.server [(barrierSealConfigPath, shamir_bytes)] [] false.
Definition foreign_world : World :=
  Sample.world [Sample.seal_ok] (Some foreign_server).

(** A bound manager over a server with a legacy recovery configuration,
    and a caller holding one configuration object. *)
Definition legacy_caller_world : World :=
  with_heap [Sample.callers_config] Sample.legacy_world.

(** A server whose barrier cannot be read. *)
Definition unreadable_barrier_server : Core :=
  {| physical := Sample.store [];
     barrier := {| kv := ∅;
                   faults := λ op, match op with
                                   | OpGet _ => Some (Errorf "barrier is sealed")
                                   | _ => None
                                   end |};
     sealed := false |}.
Definition unreadable_barrier_world : World :=
  Sample.world [Sample.seal_ok] (Some unreadable_barrier_server).

(** A server with a legacy recovery configuration whose physical store
    refuses every write. *)
Definition stuck_server : Core :=
  {| physical := physical Sample.read_only_server;
     barrier := Sample.store [(recoverySealConfigPath, Sample.recovery_bytes)];
     sealed := false |}.
Definition stuck_world : World :=
  Sample.world [Sample.seal_ok] (Some stuck_server).




(** A server that holds an up-to-date recovery key and no stored keys. *)
Definition keyless_server : Core :=
  Sample.server [(recoveryKeyPath, [Sample.tag; x2a])] [] false.
Definition keyless_world : World :=
  Sample.world [Sample.seal_ok] (Some keyless_server).

(** The stuck server with a caller holding one configuration object. *)
Definition stuck_caller_world : World :=
  with_heap [Sample.callers_config] stuck_world.

(** A backend that was marked unhealthy and works again. *)
Definition seal_recovering : SealInfo := set_Healthy false Sample.seal_ok.

(** A bound manager over a backend that fails and one that recovers, with
    the clock at 50. *)
Definition mixed_world : World :=
  with_clock 50
    (Sample.world [Sample.seal_no_decrypt; seal_recovering] (Some Sample.empty_server)).

End Sample2.

(** The world a successful [SetBarrierConfig(conf)] leaves, for a caller's
    object [conf] at address [a]: the object is stamped, its encoding is
    stored, and the cache points to a copy at the next free address. *)
Definition after_SetBarrierConfig (w : World) (c : Core) (a : nat) (conf : SealConfig) : World :=
  let stamped := set_Type (barrierSealConfigType (d w)) conf in
  let blob := encodeConfig (pkg w) stamped in
  {| pkg := pkg w;
     d := with_barrierConfig (Some (length (heap w)))
            (with_core
               (Some (with_physical
                        (with_kv (<[barrierSealConfigPath := blob]> (kv (physical c)))
                           (physical c)) c))
               (d w));
     heap := <[a := stamped]> (heap w) ++ [stamped];
     clock := clock w;
     ticker := ticker w;
     trace := EvPut "physical" barrierSealConfigPath blob :: trace w |}.

(** The core after the legacy recovery configuration [v] has been moved
    from the barrier to the plaintext path. *)
Definition migrated_core (c : Core) (v : bytes) : Core :=
  {| physical := with_kv (<[recoverySealConfigPlaintextPath := v]> (kv (physical c)))
                   (physical c);
     barrier := with_kv (delete recoverySealConfigPath (kv (barrier c))) (barrier c);
     sealed := sealed c |}.

(** The collaborator calls of a completed migration of [v] (newest
    first). *)
Definition migration_events (v : bytes) : list Event :=
  [EvLog "debug" "done migrating recovery seal configuration";
   EvDelete "barrier" recoverySealConfigPath;
   EvPut "physical" recoverySealConfigPlaintextPath v;
   EvLog "debug" "migrating recovery seal configuration";
   EvGet "barrier" recoverySealConfigPath].

(** The world a completed migration of [v] leaves. *)
Definition after_migration (w : World) (c : Core) (v : bytes) : World :=
  traced (migration_events v) (rebound (Some (migrated_core c v)) w).

(** The store serves the three operations a migration needs. *)
Definition migration_can_run (c : Core) : Prop :=
  faults (barrier c) (OpGet recoverySealConfigPath) = None ∧
  faults (physical c) (OpPut recoverySealConfigPlaintextPath) = None ∧
  faults (barrier c) (OpDelete recoverySealConfigPath) = None.

(** The core after [SetRecoveryConfig] has migrated (if [legacy] holds the
    legacy bytes) and stored [blob] at the plaintext path. *)
Definition recovery_config_stored (c : Core) (blob : bytes) : Core :=
  {| physical := with_kv (<[recoverySealConfigPlaintextPath := blob]> (kv (physical c)))
                   (physical c);
     barrier := with_kv (delete recoverySealConfigPath (kv (barrier c))) (barrier c);
     sealed := sealed c |}.

(** The entry at [path] is there, decodes, and the backend reports it as
    wrapped under an older key version: an upgrade would rewrite it. *)
Definition needs_upgrade (w : World) (path : string) : Prop :=
  ∃ c v val,
    core (d w) = Some c ∧
    Get (physical c) path = Ok (Some (mkEntry path v)) ∧
    UnmarshalSealWrappedValue (pkg w) v = Ok val ∧
    IsUpToDate (access (d w)) val true = Ok false.

(** What a call may have changed in the manager: nothing, unless [P]. *)
Definition unchanged_unless {A} (P : Prop) (w : World) (o : Outcome A) : Prop :=
  match o with
  | Returned _ w' => d w' = d w ∨ P
  | Failed _ w' => d w' = d w ∨ P
  | Panicked _ => True
  end.

Definition no_recovery_key_error : error := Errorf "no recovery key found".

(** The package's codecs are the same in [w] and [w']. *)
Definition same_pkg : relation World := λ w w', pkg w' = pkg w.

(** The backend's decrypt reports an error for the test value's
    ciphertext. *)
Definition decrypt_errors (testVal : bytes) (x : SealInfo) : bool :=
  match w_Encrypt x testVal with
  | Fail _ => false
  | Ok ciphertext => bool_decide (is_Some (snd (w_Decrypt x ciphertext)))
  end.

(** The backend [x] after a probe at time [now]. *)
Definition probed_info (testVal : bytes) (now : Z) (x : SealInfo) : SealInfo :=
  {| Name := Name x; Priority := Priority x;
     Healthy_ := round_trips testVal x;
     LastSeenHealthy := if round_trips testVal x then now else LastSeenHealthy x;
     LastHealthCheck := now;
     w_Encrypt := w_Encrypt x; w_Decrypt := w_Decrypt x |}.

(** The interval of the health ticker after a probe of [x], given the
    interval [old] before it. *)
Definition ticker_after_probe (testVal : bytes) (x : SealInfo) (old : Z) : Z :=
  if round_trips testVal x then
    if Healthy_ x && negb (decrypt_errors testVal x) then old
    else sealHealthTestIntervalNominal
  else
    if Healthy_ x then sealHealthTestIntervalUnhealthy else old.

(** * Reasoning about methods *)

Section Respects.
Context (R : relation World) `{!PreOrder R}.

#[local] Abbreviation respects := (@respects R _).

Lemma respects_ret {A} (Q : A → Prop) (a : A) : Q a → respects Q (mret a).
Proof. intros Ha w. split; [reflexivity | exact Ha]. Qed.

Lemma respects_fail {A} (Q : A → Prop) (e : error) : respects Q (fail_with e).
Proof. intros w. simpl. reflexivity. Qed.

Lemma respects_panic {A} (Q : A → Prop) (msg : string) : respects Q (panic msg).
Proof. intros w. exact I. Qed.

Lemma respects_bind {A B} (P : A → Prop) (Q : B → Prop) (m : M A) (f : A → M B) :
  respects P m → (∀ a, P a → respects Q (f a)) → respects Q (m ≫= f).
Proof.
  intros Hm Hf w. unfold mbind, M_bind.
  specialize (Hm w). destruct (m w) as [a w1|e w1|msg]; [|exact Hm|exact I].
  destruct Hm as [HR Ha]. specialize (Hf a Ha w1).
  destruct (f a w1) as [b w2|e w2|msg]; [|etrans; eassumption|exact I].
  destruct Hf as [HR2 Hb]. split; [etrans; eassumption | exact Hb].
Qed.

Lemma respects_weaken {A} (P Q : A → Prop) (m : M A) :
  respects P m → (∀ a, P a → Q a) → respects Q m.
Proof.
  intros Hm HPQ w. specialize (Hm w).
  destruct (m w); [destruct Hm; split; auto | exact Hm | exact I].
Qed.

Lemma respects_seq {A B} (Q : B → Prop) (m : M A) (f : A → M B) :
  respects (λ _, True) m → (∀ a, respects Q (f a)) → respects Q (m ≫= f).
Proof. intros Hm Hf. eapply respects_bind; [exact Hm | intros a _; apply Hf]. Qed.

Lemma respects_lift {A} (Q : A → Prop) (r : result A) :
  (∀ a, r = Ok a → Q a) → respects Q (lift r).
Proof.
  intros HQ. destruct r as [a|e]; [apply respects_ret; auto | apply respects_fail].
Qed.

Lemma respects_wrapping {A} (Q : A → Prop) (msg : string) (m : M A) :
  respects Q m → respects Q (wrapping msg m).
Proof. intros Hm w. unfold wrapping. specialize (Hm w). destruct (m w); exact Hm. Qed.

Lemma respects_logged {A} (Q : A → Prop) (level msg : string) (m : M A) :
  (∀ w, R w (with_trace (EvLog level msg :: trace w) w)) →
  respects Q m → respects Q (logged level msg m).
Proof.
  intros Hlog Hm w. unfold logged. specialize (Hm w).
  destruct (m w) as [a w1|e w1|msg']; [exact Hm| |exact I].
  etrans; [exact Hm | apply Hlog].
Qed.

Lemma respects_deferring {A} (Q : A → Prop) (h : M unit) (m : M A) :
  respects (λ _, True) h → respects Q m → respects Q (deferring h m).
Proof.
  intros Hh Hm w. unfold deferring. specialize (Hm w).
  destruct (m w) as [a w1|e w1|msg]; [| |exact I]; specialize (Hh w1);
    destruct (h w1) as [u w2|e' w2|msg]; try exact I.
  - destruct Hm, Hh. split; [etrans; eassumption | assumption].
  - destruct Hm. etrans; eassumption.
  - destruct Hh. etrans; eassumption.
  - etrans; eassumption.
Qed.

Lemma respects_get_d : respects (λ _, True) get_d.
Proof. intros w. split; [reflexivity | exact I]. Qed.

Lemma respects_get_pkg : respects (λ _, True) get_pkg.
Proof. intros w. split; [reflexivity | exact I]. Qed.

Lemma respects_deref_core : respects (λ _, True) deref_core.
Proof.
  intros w. unfold deref_core. destruct (core (d w)); [|exact I].
  split; [reflexivity | exact I].
Qed.

Lemma respects_load (p : ptr) : respects (λ _, True) (load p).
Proof.
  intros w. unfold load. destruct p as [a|]; [|exact I].
  destruct (heap w !! a); [|exact I]. split; [reflexivity | exact I].
Qed.

Lemma respects_seal_at (i : nat) : respects (λ _, True) (seal_at i).
Proof.
  intros w. unfold seal_at. destruct (SealInfos (access (d w)) !! i); [|exact I].
  split; [reflexivity | exact I].
Qed.

Lemma respects_modify_d (f : autoSeal → autoSeal) :
  (∀ w, R w (with_d (f (d w)) w)) → respects (λ _, True) (modify_d f).
Proof. intros H w. split; [apply H | exact I]. Qed.

Lemma respects_emit (e : Event) :
  (∀ w, R w (with_trace (e :: trace w) w)) → respects (λ _, True) (emit e).
Proof. intros H w. split; [apply H | exact I]. Qed.

Lemma respects_new_SealConfig (c : SealConfig) :
  (∀ w, R w (with_heap (heap w ++ [c]) w)) →
  respects (λ _, True) (new_SealConfig c).
Proof. intros H w. split; [apply H | exact I]. Qed.

Lemma respects_store_Type (p : ptr) (t : string) :
  (∀ w a c, heap w !! a = Some c →
            R w (with_heap (<[a := set_Type t c]> (heap w)) w)) →
  respects (λ _, True) (store_Type p t).
Proof.
  intros H w. unfold store_Type. destruct p as [a|]; [|exact I].
  destruct (heap w !! a) eqn:E; [|exact I]. split; [eapply H, E | exact I].
Qed.

Lemma respects_time_Now :
  (∀ w, R w (with_clock (clock w + 1) w)) → respects (λ _, True) time_Now.
Proof. intros H w. split; [apply H | exact I]. Qed.

Lemma respects_NewTicker (i : Z) :
  (∀ w, R w (with_ticker i w)) → respects (λ _, True) (NewTicker i).
Proof. intros H w. split; [apply H | exact I]. Qed.

Lemma respects_ticker_Reset (i : Z) :
  (∀ w, R w (with_ticker i (with_trace (EvTickerReset i :: trace w) w))) →
  respects (λ _, True) (ticker_Reset i).
Proof. intros H w. split; [apply H | exact I]. Qed.

Lemma respects_for_each (body : nat → bool → M bool) (l : list nat) (acc : bool) :
  (∀ i b, respects (λ _, True) (body i b)) →
  respects (λ _, True) (for_each body l acc).
Proof.
  intros Hb. revert acc. induction l as [|i l IH]; intros acc; simpl.
  - apply respects_ret. exact I.
  - apply respects_seq; [apply Hb | intros a; apply IH].
Qed.

(** What [respects] says about a run that is known to end in [w']. *)
Lemma respects_returned {A} (Q : A → Prop) (m : M A) w a w' :
  respects Q m → m w = Returned a w' → R w w' ∧ Q a.
Proof. intros Hm E. specialize (Hm w). rewrite E in Hm. exact Hm. Qed.

Lemma respects_failed {A} (Q : A → Prop) (m : M A) w e w' :
  respects Q m → m w = Failed e w' → R w w'.
Proof. intros Hm E. specialize (Hm w). rewrite E in Hm. exact Hm. Qed.

End Respects.

Create HintDb methods.
#[global] Hint Unfold
  Healthy SealWrapable GetAccess checkCore SetCore BarrierSealConfigType
  RecoveryKeySupported SetStoredKeys GetStoredKeys upgradeStoredKeys
  UpgradeKeys BarrierConfig ClearBarrierConfig SetBarrierConfig
  SetCachedBarrierConfig RecoveryConfig migrateRecoveryConfig
  SetRecoveryConfig ClearRecoveryConfig SetCachedRecoveryConfig
  VerifyRecoveryKey SetRecoveryKey RecoveryKey getRecoveryKeyInternal
  upgradeRecoveryKey StartHealthCheck StopHealthCheck
  physical_Get physical_Put barrier_Get barrier_Delete
  access_Encrypt access_Decrypt access_IsUpToDate
  SealWrapRecoveryKey UnsealWrapRecoveryKey writeStoredKeys
  UnsealWrapStoredBarrierKeys readStoredKeys read_config write_config
  PhysicalBarrierSealConfig SetPhysicalBarrierSealConfig
  PhysicalRecoverySealConfig PhysicalRecoverySealConfigOldPath
  SetPhysicalRecoverySealConfig Sealed Clone logger
  update_seal SetGauge fail probe : methods.

(** One step of a proof that a method respects [R]; [side] closes the
    conditions on the primitive state changes. *)
Ltac respects_step side :=
  lazymatch goal with
  | |- PreOrder _ => exact _
  | |- ∀ _, respects _ _ _ => intros ?
  | |- ∀ _, _ = Ok _ → _ => intros ? ?; exact I
  | |- respects _ _ (mbind _ _) => apply respects_seq
  | |- respects _ _ (mret _) => apply respects_ret
  | |- respects _ _ (fail_with _) => apply respects_fail
  | |- respects _ _ (panic _) => apply respects_panic
  | |- respects _ _ (lift _) => apply respects_lift
  | |- respects _ _ (wrapping _ _) => apply respects_wrapping
  | |- respects _ _ (logged _ _ _) => apply respects_logged
  | |- respects _ _ (deferring _ _) => apply respects_deferring
  | |- respects _ _ get_d => apply respects_get_d
  | |- respects _ _ get_pkg => apply respects_get_pkg
  | |- respects _ _ deref_core => apply respects_deref_core
  | |- respects _ _ (load _) => apply respects_load
  | |- respects _ _ (seal_at _) => apply respects_seal_at
  | |- respects _ _ (modify_d _) => apply respects_modify_d
  | |- respects _ _ (emit _) => apply respects_emit
  | |- respects _ _ (new_SealConfig _) => apply respects_new_SealConfig
  | |- respects _ _ (store_Type _ _) => apply respects_store_Type
  | |- respects _ _ time_Now => apply respects_time_Now
  | |- respects _ _ (NewTicker _) => apply respects_NewTicker
  | |- respects _ _ (ticker_Reset _) => apply respects_ticker_Reset
  | |- respects _ _ (for_each _ _ _) => apply respects_for_each; [..|intros ?]
  | |- respects _ _ (match ?x with _ => _ end) => destruct x
  | |- respects _ _ _ => progress autounfold with methods
  | |- _ => first [exact I | side]
  end.

Ltac respects_auto side := repeat (respects_step side).

Lemma run_respects (R : relation World) `{!PreOrder R} (P : Call → Prop) :
  (∀ c, P c → respects R (λ _, True) (call c)) →
  ∀ cs w w', Forall P cs → run cs w = Some w' → R w w'.
Proof.
  intros Hcall cs. induction cs as [|c cs IH]; intros w w' HP Hrun; simpl in Hrun.
  - injection Hrun as <-. reflexivity.
  - inversion HP as [|? ? Hc Hcs]; subst.
    specialize (Hcall c Hc w).
    destruct (call c w) as [u w1|e w1|msg]; [| |discriminate].
    + destruct Hcall as [H1 _]. etrans; [exact H1 | eapply IH; eassumption].
    + etrans; [exact Hcall | eapply IH; eassumption].
Qed.

(** ** The barrier seal type *)

#[global] Instance same_type_preorder : PreOrder same_type.
Proof.
  split; [intros w; reflexivity | intros a b c Hab Hbc].
  unfold same_type in *. congruence.
Qed.

Ltac field_side := intros; reflexivity.

Lemma call_same_type (c : Call) : respects same_type (λ _, True) (call c).
Proof.
  destruct c; unfold call; try unfold check; respects_auto field_side.
Qed.

Lemma NewAutoSeal_type (lowLevel : Access) (s : autoSeal) :
  NewAutoSeal lowLevel = inr s →
  ((1 < length (Seals lowLevel))%nat ∧
   barrierSealConfigType s = SealConfigTypeMultiseal) ∨
  (∃ x, Seals lowLevel = [x] ∧ barrierSealConfigType s = kms_Type x).
Proof.
  unfold NewAutoSeal. case_bool_decide as Hlen.
  - intros [= <-]. left. split; [exact Hlen | reflexivity].
  - destruct (Seals lowLevel) as [|x [|y l]] eqn:E; simpl in *.
    + discriminate.
    + intros [= <-]. right. exists x. split; reflexivity.
    + lia.
Qed.

(** C7. For every configured backend set the manager's
    BarrierSealConfigType is "multiseal" when more than one backend is
    configured and the single backend's declared type when exactly one is;
    with declared types other than the reserved name "multiseal" it is
    "multiseal" exactly when more than one backend is configured.  The value
    is set by NewAutoSeal and no later call of any method, nor any tick of
    the health loop, changes it. *)
Theorem BarrierSealConfigType_fixed_at_construction
    (lowLevel : Access) (s : autoSeal) (w w' : World) (cs : list Call) :
  NewAutoSeal lowLevel = inr s →
  d w = s →
  run cs w = Some w' →
  ∃ t, BarrierSealConfigType w' = Returned t w' ∧
       t = barrierSealConfigType s ∧
       ((1 < length (Seals lowLevel))%nat → t = SealConfigTypeMultiseal) ∧
       (∀ x, Seals lowLevel = [x] → t = kms_Type x) ∧
       (Forall (λ x, kms_Type x ≠ SealConfigTypeMultiseal) (Seals lowLevel) →
        t = SealConfigTypeMultiseal ↔ (1 < length (Seals lowLevel))%nat).
Proof.
  intros Hnew Hd Hrun.
  assert (Hfix : barrierSealConfigType (d w') = barrierSealConfigType s).
  { rewrite <- Hd.
    apply (run_respects same_type (λ _, True)) with (cs := cs);
      [intros c _; apply call_same_type | | exact Hrun].
    apply Forall_forall. intros; exact I. }
  exists (barrierSealConfigType (d w')). split; [reflexivity|].
  split; [exact Hfix|]. rewrite Hfix.
  destruct (NewAutoSeal_type _ _ Hnew) as [[Hlen Ht]|[x [Hx Ht]]].
  - split; [intros _; exact Ht|]. split.
    + intros y Hy. rewrite Hy in Hlen. simpl in Hlen. lia.
    + intros _. split; [intros _; exact Hlen | intros _; exact Ht].
  - split; [intros Hlen; rewrite Hx in Hlen; simpl in Hlen; lia|]. split.
    + intros y Hy. rewrite Hx in Hy. injection Hy as <-. exact Ht.
    + intros Hall. rewrite Hx in Hall. apply Forall_inv in Hall.
      rewrite Ht, Hx. simpl. split; [intros E; contradiction | lia].
Qed.

Lemma BarrierSealConfigType_fixed_witness :
  ∃ t, BarrierSealConfigType
         (Sample.after (Sample.startup ++ [Tick 0 7]) (Sample.world Sample.two_seals None))
       = Returned t
           (Sample.after (Sample.startup ++ [Tick 0 7]) (Sample.world Sample.two_seals None)) ∧
       t = barrierSealConfigType (Sample.manager Sample.two_seals None) ∧
       ((1 < length (Seals (Sample.lowLevel Sample.two_seals)))%nat →
        t = SealConfigTypeMultiseal) ∧
       (∀ x, Seals (Sample.lowLevel Sample.two_seals) = [x] → t = kms_Type x) ∧
       (Forall (λ x, kms_Type x ≠ SealConfigTypeMultiseal)
          (Seals (Sample.lowLevel Sample.two_seals)) →
        t = SealConfigTypeMultiseal ↔
        (1 < length (Seals (Sample.lowLevel Sample.two_seals)))%nat).
Proof.
  apply (BarrierSealConfigType_fixed_at_construction
           (Sample.lowLevel Sample.two_seals)
           (Sample.manager Sample.two_seals None)
           (Sample.world Sample.two_seals None)
           (Sample.after (Sample.startup ++ [Tick 0 7]) (Sample.world Sample.two_seals None))
           (Sample.startup ++ [Tick 0 7])).
  - reflexivity.
  - reflexivity.
  - vm_compute. reflexivity.
Defined.

(** ** The aggregate health flag before the first pass *)

#[global] Instance same_health_flag_preorder : PreOrder same_health_flag.
Proof.
  split; [intros w; reflexivity | intros a b c Hab Hbc].
  unfold same_health_flag in *. congruence.
Qed.

Lemma call_same_health_flag (c : Call) :
  is_Tick c = false → respects same_health_flag (λ _, True) (call c).
Proof.
  destruct c; intros Hc; try discriminate; unfold call;
    respects_auto field_side.
Qed.

Lemma NewAutoSeal_unhealthy (lowLevel : Access) (s : autoSeal) :
  NewAutoSeal lowLevel = inr s → allSealsHealthy s = false.
Proof.
  unfold NewAutoSeal. case_bool_decide.
  - intros [= <-]. reflexivity.
  - destruct (Seals lowLevel !! 0%nat); [intros [= <-]; reflexivity | discriminate].
Qed.

(** C10. From construction until the first health-check pass completes,
    Healthy() returns false: NewAutoSeal leaves the flag at its zero value
    and no call other than a tick of the health loop (starting the loop
    included) changes it, whatever the backends would answer. *)
Theorem Healthy_false_until_first_pass
    (lowLevel : Access) (s : autoSeal) (w w' : World) (cs : list Call) :
  NewAutoSeal lowLevel = inr s →
  d w = s →
  Forall (λ c, is_Tick c = false) cs →
  run cs w = Some w' →
  Healthy w' = Returned false w'.
Proof.
  intros Hnew Hd Hcs Hrun.
  assert (Hfix : allSealsHealthy (d w') = allSealsHealthy (d w)).
  { apply (run_respects same_health_flag (λ c, is_Tick c = false)) with (cs := cs);
      [apply call_same_health_flag | exact Hcs | exact Hrun]. }
  unfold Healthy, mbind, M_bind, get_d, mret, M_ret.
  rewrite Hfix, Hd, (NewAutoSeal_unhealthy _ _ Hnew). reflexivity.
Qed.

Lemma Healthy_false_until_first_pass_witness :
  Healthy (Sample.after Sample.startup (Sample.world [Sample.seal_ok] None))
  = Returned false (Sample.after Sample.startup (Sample.world [Sample.seal_ok] None)).
Proof.
  apply (Healthy_false_until_first_pass
           (Sample.lowLevel [Sample.seal_ok])
           (Sample.manager [Sample.seal_ok] None)
           (Sample.world [Sample.seal_ok] None)
           (Sample.after Sample.startup (Sample.world [Sample.seal_ok] None))
           Sample.startup).
  - reflexivity.
  - reflexivity.
  - repeat constructor.
  - vm_compute. reflexivity.
Defined.

(** ** Calls made before a core is bound *)

(** Unfolds the monad's operations so that a method applied to a world
    computes. *)
Ltac run_method :=
  autounfold with methods;
  unfold mbind, M_bind, mret, M_ret, get_d, get_pkg, modify_d, emit,
    fail_with, lift, wrapping, logged, deferring, deref_core; simpl.

(** C2. On a manager that SetCore has not bound, the operations that call
    checkCore return the error "seal does not have a core set" and leave
    the world as it was (BarrierConfig and RecoveryConfig do so when their
    cache is empty).  SetStoredKeys, GetStoredKeys, RecoveryKey,
    VerifyRecoveryKey of a non-nil key and UpgradeKeys make no such check:
    they dereference the nil core and panic. *)
Theorem calls_before_SetCore (w : World) (conf : ptr) (key : option bytes)
    (keys : list bytes) (candidate : bytes) :
  core (d w) = None →
  (SetBarrierConfig conf w = Failed no_core_error w ∧
   SetRecoveryConfig conf w = Failed no_core_error w ∧
   SetRecoveryKey key w = Failed no_core_error w ∧
   (barrierConfig (d w) = None → BarrierConfig w = Failed no_core_error w) ∧
   (recoveryConfig (d w) = None → RecoveryConfig w = Failed no_core_error w)) ∧
  (SetStoredKeys keys w = Panicked nil_deref ∧
   GetStoredKeys w = Panicked nil_deref ∧
   RecoveryKey w = Panicked nil_deref ∧
   VerifyRecoveryKey (Some candidate) w = Panicked nil_deref ∧
   UpgradeKeys w = Panicked nil_deref).
Proof.
  intros Hcore. split; [split; [|split; [|split; [|split]]] | repeat split].
  - run_method. rewrite Hcore. reflexivity.
  - run_method. rewrite Hcore. reflexivity.
  - run_method. rewrite Hcore. reflexivity.
  - intros Hcache. run_method. rewrite Hcache, Hcore. reflexivity.
  - intros Hcache. run_method. rewrite Hcache, Hcore. reflexivity.
  - run_method. rewrite Hcore. reflexivity.
  - run_method. rewrite Hcore. reflexivity.
  - run_method. rewrite Hcore. reflexivity.
  - run_method. rewrite Hcore. reflexivity.
  - run_method. rewrite Hcore. reflexivity.
Qed.

Lemma calls_before_SetCore_witness :
  (SetBarrierConfig None (Sample.world [Sample.seal_ok] None)
   = Failed no_core_error (Sample.world [Sample.seal_ok] None) ∧
   SetRecoveryConfig None (Sample.world [Sample.seal_ok] None)
   = Failed no_core_error (Sample.world [Sample.seal_ok] None) ∧
   SetRecoveryKey (Some []) (Sample.world [Sample.seal_ok] None)
   = Failed no_core_error (Sample.world [Sample.seal_ok] None) ∧
   (barrierConfig (d (Sample.world [Sample.seal_ok] None)) = None →
    BarrierConfig (Sample.world [Sample.seal_ok] None)
    = Failed no_core_error (Sample.world [Sample.seal_ok] None)) ∧
   (recoveryConfig (d (Sample.world [Sample.seal_ok] None)) = None →
    RecoveryConfig (Sample.world [Sample.seal_ok] None)
    = Failed no_core_error (Sample.world [Sample.seal_ok] None))) ∧
  (SetStoredKeys [[]] (Sample.world [Sample.seal_ok] None) = Panicked nil_deref ∧
   GetStoredKeys (Sample.world [Sample.seal_ok] None) = Panicked nil_deref ∧
   RecoveryKey (Sample.world [Sample.seal_ok] None) = Panicked nil_deref ∧
   VerifyRecoveryKey (Some []) (Sample.world [Sample.seal_ok] None) = Panicked nil_deref ∧
   UpgradeKeys (Sample.world [Sample.seal_ok] None) = Panicked nil_deref).
Proof.
  apply (calls_before_SetCore (Sample.world [Sample.seal_ok] None) None (Some []) [[]] []).
  reflexivity.
Defined.

(** ** RecoveryConfig when the primary location is empty *)

(** C6. With an empty cache and no entry at the primary location,
    RecoveryConfig on a sealed server returns nil without reading the legacy
    path, and on an unsealed server with no legacy entry it returns nil.  On
    an unsealed server whose legacy path holds a configuration it does not
    return that configuration: the block that reads the legacy path assigns
    it to variables of its own, the outer [conf] stays nil, and the
    [conf.Type] after the block panics. *)
Theorem RecoveryConfig_primary_missing (w : World) (c : Core) :
  recoveryConfig (d w) = None →
  core (d w) = Some c →
  Get (physical c) recoverySealConfigPlaintextPath = Ok None →
  (sealed c = true →
   RecoveryConfig w =
   Returned None
     (traced [EvLog "info" "recovery seal configuration missing, but cannot check old path as core is sealed";
              EvGet "physical" recoverySealConfigPlaintextPath] w)) ∧
  (sealed c = false →
   Get (barrier c) recoverySealConfigPath = Ok None →
   RecoveryConfig w =
   Returned None
     (traced [EvLog "info" "recovery seal configuration missing, not initialized";
              EvGet "barrier" recoverySealConfigPath;
              EvGet "physical" recoverySealConfigPlaintextPath] w)) ∧
  (sealed c = false →
   ∀ pe conf,
     Get (barrier c) recoverySealConfigPath = Ok (Some pe) →
     decodeConfig (pkg w) (Value pe) = Ok conf →
     RecoveryConfig w = Panicked nil_deref).
Proof.
  intros Hcache Hcore Hprimary. repeat split.
  - intros Hsealed. run_method.
    repeat (progress (simpl; rewrite ?Hcache, ?Hcore, ?Hprimary, ?Hsealed)).
    reflexivity.
  - intros Hsealed Hlegacy. run_method.
    repeat (progress (simpl; rewrite ?Hcache, ?Hcore, ?Hprimary, ?Hsealed, ?Hlegacy)).
    reflexivity.
  - intros Hsealed pe conf Hlegacy Hdecode. run_method.
    repeat (progress (simpl; rewrite ?Hcache, ?Hcore, ?Hprimary, ?Hsealed,
                        ?Hlegacy, ?Hdecode)).
    reflexivity.
Qed.

Lemma RecoveryConfig_primary_missing_witness :
  RecoveryConfig Sample.legacy_world = Panicked nil_deref.
Proof.
  refine (proj2 (proj2 (RecoveryConfig_primary_missing
                          Sample.legacy_world Sample.legacy_server _ _ _))
            _ (mkEntry recoverySealConfigPath Sample.recovery_bytes)
            (mkSealConfig "recovery" 5 3 1) _ _); reflexivity.
Defined.

(** ** SetRecoveryKey *)

(** C3, as the code has it.  On a bound manager SetRecoveryKey rejects the
    nil key with "recovery key to store is nil" and changes nothing.  Every
    non-nil key, the zero-length one included, is wrapped and, when the
    backend encrypts it and the store accepts the write, persisted at the
    fixed recovery-key path. *)
Theorem SetRecoveryKey_rejects_only_nil (w : World) (c : Core) :
  core (d w) = Some c →
  SetRecoveryKey None w = Failed (Errorf "recovery key to store is nil") w ∧
  ∀ key blob,
    Encrypt (access (d w)) (encryptions (access (d w))) key = Ok blob →
    faults (physical c) (OpPut recoveryKeyPath) = None →
    ∃ w' c',
      SetRecoveryKey (Some key) w = Returned tt w' ∧
      core (d w') = Some c' ∧
      kv (physical c') = <[recoveryKeyPath := blob]> (kv (physical c)) ∧
      trace w' = [EvPut "physical" recoveryKeyPath blob; EvEncrypt key] ++ trace w.
Proof.
  intros Hcore. split.
  - run_method. rewrite Hcore. reflexivity.
  - intros key blob Henc Hput. eexists _, _. split.
    + run_method. unfold Put.
      repeat (progress (simpl; rewrite ?Hcore, ?Henc, ?Hput)).
      reflexivity.
    + repeat split.
Qed.

Lemma SetRecoveryKey_rejects_only_nil_witness :
  SetRecoveryKey None Sample.bound_world
  = Failed (Errorf "recovery key to store is nil") Sample.bound_world ∧
  ∀ key blob,
    Encrypt (access (d Sample.bound_world))
      (encryptions (access (d Sample.bound_world))) key = Ok blob →
    faults (physical Sample.empty_server) (OpPut recoveryKeyPath) = None →
    ∃ w' c',
      SetRecoveryKey (Some key) Sample.bound_world = Returned tt w' ∧
      core (d w') = Some c' ∧
      kv (physical c') = <[recoveryKeyPath := blob]> (kv (physical Sample.empty_server)) ∧
      trace w' = [EvPut "physical" recoveryKeyPath blob; EvEncrypt key]
                 ++ trace Sample.bound_world.
Proof.
  apply (SetRecoveryKey_rejects_only_nil Sample.bound_world Sample.empty_server).
  reflexivity.
Defined.

(** C3, as the claim states it, fails: the zero-length non-nil key is not
    rejected.  SetRecoveryKey wraps it and writes the wrapped value at the
    recovery-key path. *)
Lemma SetRecoveryKey_stores_empty_key :
  (∀ e w', SetRecoveryKey (Some []) Sample.bound_world ≠ Failed e w') ∧
  ∃ w' c',
    SetRecoveryKey (Some []) Sample.bound_world = Returned tt w' ∧
    core (d w') = Some c' ∧
    kv (physical c') !! recoveryKeyPath = Some [Sample.tag] ∧
    trace w' = [EvPut "physical" recoveryKeyPath [Sample.tag]; EvEncrypt []].
Proof.
  split.
  - intros e w'. vm_compute. discriminate.
  - eexists _, _. split; [vm_compute; reflexivity|].
    split; [reflexivity|]. split; [vm_compute; reflexivity | reflexivity].
Qed.

(** ** The caller's configuration object *)

#[global] Instance same_heap_preorder : PreOrder same_heap.
Proof.
  split.
  - intros w. split; [reflexivity | auto].
  - intros a b c [H1 H2] [H3 H4]. split; [congruence | auto].
Qed.

Ltac same_heap_side :=
  intros; split; [reflexivity | simpl; intros; eauto].

Lemma migrateRecoveryConfig_same_heap :
  respects same_heap (λ _, True) migrateRecoveryConfig.
Proof. respects_auto same_heap_side. Qed.

Lemma lookup_stamped (h : list SealConfig) (a : nat) (c c' x : SealConfig) :
  h !! a = Some c → (<[a := c']> h ++ [x]) !! a = Some c'.
Proof.
  intros Ha. apply lookup_lt_Some in Ha as Hlt.
  rewrite lookup_app_l by (rewrite length_insert; exact Hlt).
  apply list_lookup_insert_eq. exact Hlt.
Qed.

(** C9. On a bound manager SetBarrierConfig with a non-nil config writes
    the manager's barrier type into the Type field of the caller's own
    object before persisting, so the object carries it when the call
    returns, also when the persist fails and the call returns that error.
    SetRecoveryConfig does the same with the recovery type once its
    migration step has passed. *)
Theorem Set_config_stamps_callers_object
    (w : World) (c : Core) (a : nat) (conf : SealConfig) :
  core (d w) = Some c →
  heap w !! a = Some conf →
  stamped_after (SetBarrierConfig (Some a) w) a
    (set_Type (barrierSealConfigType (d w)) conf) ∧
  (∀ e, faults (physical c) (OpPut barrierSealConfigPath) = Some e →
        ∃ e' w', SetBarrierConfig (Some a) w = Failed e' w' ∧
                 heap w' !! a = Some (set_Type (barrierSealConfigType (d w)) conf)) ∧
  (∀ w1, migrateRecoveryConfig w = Returned tt w1 →
         stamped_after (SetRecoveryConfig (Some a) w) a
           (set_Type RecoverySealConfigType conf)).
Proof.
  intros Hcore Hheap. apply lookup_lt_Some in Hheap as Hlt.
  split; [|split].
  - unfold stamped_after. run_method. unfold store_Type, load, Put, new_SealConfig.
    repeat (progress (simpl; rewrite ?Hcore, ?Hheap;
                      rewrite ?list_lookup_insert_eq by exact Hlt)).
    destruct (faults (physical c) (OpPut barrierSealConfigPath)) as [e|]; simpl.
    + apply list_lookup_insert_eq. exact Hlt.
    + rewrite list_lookup_insert_eq by exact Hlt. simpl.
      eapply lookup_stamped. exact Hheap.
  - intros e He. eexists _, _. split.
    + run_method. unfold store_Type, load, Put, new_SealConfig.
      repeat (progress (simpl; rewrite ?Hcore, ?Hheap, ?He;
                        rewrite ?list_lookup_insert_eq by exact Hlt)).
      reflexivity.
    + simpl. apply list_lookup_insert_eq. exact Hlt.
  - intros w1 Hmig.
    destruct (respects_returned same_heap _ _ _ _ _ migrateRecoveryConfig_same_heap Hmig)
      as [[Hh Hc] _].
    destruct (Hc (ex_intro _ c Hcore)) as [c1 Hcore1].
    rewrite <- Hh in Hheap.
    assert (Hlt1 : (a < length (heap w1))%nat) by (rewrite Hh; exact Hlt).
    unfold stamped_after, SetRecoveryConfig, checkCore.
    unfold mbind, M_bind, get_d. rewrite Hcore. unfold mret, M_ret.
    rewrite Hmig.
    run_method. unfold store_Type, load, Put, new_SealConfig.
    repeat (progress (simpl; rewrite ?Hcore1, ?Hheap;
                      rewrite ?list_lookup_insert_eq by exact Hlt1)).
    destruct (faults (physical c1) (OpPut recoverySealConfigPlaintextPath)) as [e|]; simpl.
    + apply list_lookup_insert_eq. exact Hlt1.
    + rewrite list_lookup_insert_eq by exact Hlt1. simpl.
      eapply lookup_stamped. exact Hheap.
Qed.

Lemma Set_config_stamps_callers_object_witness :
  stamped_after (SetBarrierConfig (Some 0%nat) Sample.caller_world) 0
    (set_Type (barrierSealConfigType (d Sample.caller_world)) Sample.callers_config) ∧
  (∀ e, faults (physical Sample.empty_server) (OpPut barrierSealConfigPath) = Some e →
        ∃ e' w', SetBarrierConfig (Some 0%nat) Sample.caller_world = Failed e' w' ∧
                 heap w' !! 0%nat
                 = Some (set_Type (barrierSealConfigType (d Sample.caller_world))
                           Sample.callers_config)) ∧
  (∀ w1, migrateRecoveryConfig Sample.caller_world = Returned tt w1 →
         stamped_after (SetRecoveryConfig (Some 0%nat) Sample.caller_world) 0
           (set_Type RecoverySealConfigType Sample.callers_config)).
Proof.
  apply (Set_config_stamps_callers_object
           Sample.caller_world Sample.empty_server 0 Sample.callers_config);
    reflexivity.
Defined.

(** A store that refuses the write: SetBarrierConfig returns the error and
    the caller's object, which held "shamir", now holds the manager's
    type. *)
Example SetBarrierConfig_stamps_on_failed_persist :
  ∃ e w',
    SetBarrierConfig (Some 0%nat) Sample.read_only_world = Failed e w' ∧
    Type_ <$> heap Sample.read_only_world !! 0%nat = Some "shamir" ∧
    Type_ <$> heap w' !! 0%nat = Some "transit" ∧
    barrierConfig (d w') = None.
Proof.
  eexists _, _. split; [vm_compute; reflexivity|].
  split; [reflexivity|]. split; reflexivity.
Qed.

(** ** UpgradeKeys *)

Lemma up_to_date_traced (evs : list Event) (w : World) (path : string) :
  up_to_date w path → up_to_date (traced evs w) path.
Proof. intros (c & v & val & H). exists c, v, val. exact H. Qed.

Lemma UpgradeKeys_up_to_date (w : World) :
  up_to_date w recoveryKeyPath →
  up_to_date w StoredBarrierKeysPath →
  UpgradeKeys w = Returned tt (traced upgrade_reads w).
Proof.
  intros (c & v & val & Hcore & Hget & Hdec & Hup)
         (c' & v' & val' & Hcore' & Hget' & Hdec' & Hup').
  rewrite Hcore in Hcore'. injection Hcore' as <-.
  run_method.
  repeat (progress (simpl; rewrite ?Hcore, ?Hget, ?Hget', ?Hdec, ?Hdec', ?Hup, ?Hup')).
  reflexivity.
Qed.

(** C5. When the recovery key and the stored root key shares are both
    wrapped under the backend's current key version, UpgradeKeys succeeds
    and does nothing but read the two entries: no encryption, no
    decryption, no write; the manager, its core and the persisted bytes are
    the same after the call.  A second call in succession does the same, so
    the stored bytes after two calls are those after one. *)
Theorem UpgradeKeys_idempotent (w : World) :
  up_to_date w recoveryKeyPath →
  up_to_date w StoredBarrierKeysPath →
  ∃ w1 w2,
    UpgradeKeys w = Returned tt w1 ∧
    UpgradeKeys w1 = Returned tt w2 ∧
    d w1 = d w ∧ d w2 = d w1 ∧
    trace w1 = upgrade_reads ++ trace w ∧
    trace w2 = upgrade_reads ++ trace w1.
Proof.
  intros Hrec Hkeys.
  exists (traced upgrade_reads w), (traced upgrade_reads (traced upgrade_reads w)).
  split; [apply UpgradeKeys_up_to_date; assumption|].
  split; [apply UpgradeKeys_up_to_date; apply up_to_date_traced; assumption|].
  repeat split.
Qed.

Lemma UpgradeKeys_idempotent_witness :
  ∃ w1 w2,
    UpgradeKeys Sample.current_world = Returned tt w1 ∧
    UpgradeKeys w1 = Returned tt w2 ∧
    d w1 = d Sample.current_world ∧ d w2 = d w1 ∧
    trace w1 = upgrade_reads ++ trace Sample.current_world ∧
    trace w2 = upgrade_reads ++ trace w1.
Proof.
  apply (UpgradeKeys_idempotent Sample.current_world).
  - exists Sample.current_server, [Sample.tag; x2a], [Sample.tag; x2a].
    repeat split; vm_compute; reflexivity.
  - exists Sample.current_server, [Sample.tag; x07], [Sample.tag; x07].
    repeat split; vm_compute; reflexivity.
Defined.

#[global] Instance stored_keys_untouched_preorder : PreOrder stored_keys_untouched.
Proof.
  split.
  - intros w. split; [reflexivity|]. exists []. split; [reflexivity | constructor].
  - intros a b c [H1 (e1 & T1 & F1)] [H2 (e2 & T2 & F2)]. split; [congruence|].
    exists (e2 ++ e1). split.
    + rewrite T2, T1. apply app_assoc.
    + apply Forall_app. split; assumption.
Qed.

Ltac untouched_side :=
  intros; split;
  [ reflexivity
  | first [ exists []; split; [reflexivity | constructor]
          | eexists [_]; split; [reflexivity | repeat constructor] ] ].

Lemma recoveryKeyPath_not_stored_keys : recoveryKeyPath ≠ StoredBarrierKeysPath.
Proof. discriminate. Qed.

Lemma physical_Put_untouched (e : Entry) :
  Key e ≠ StoredBarrierKeysPath →
  respects stored_keys_untouched (λ _, True) (physical_Put e).
Proof.
  intros Hkey w. run_method. unfold Put.
  destruct (core (d w)) as [c|] eqn:Hcore; [|exact I]. simpl.
  assert (Hev : Forall (λ ev, touches_stored_keys ev = false)
                  [EvPut "physical" (Key e) (Value e)]).
  { repeat constructor. simpl. apply bool_decide_eq_false. exact Hkey. }
  destruct (faults (physical c) (OpPut (Key e))); simpl.
  - split; [reflexivity|]. exists [EvPut "physical" (Key e) (Value e)].
    split; [reflexivity | exact Hev].
  - split; [|exact I]. split.
    + unfold stored_keys_entry. simpl. rewrite Hcore. simpl. f_equal.
      apply lookup_insert_ne. exact Hkey.
    + exists [EvPut "physical" (Key e) (Value e)].
      split; [reflexivity | exact Hev].
Qed.

Lemma SetRecoveryKey_untouched (key : option bytes) :
  respects stored_keys_untouched (λ _, True) (SetRecoveryKey key).
Proof.
  unfold SetRecoveryKey.
  apply (respects_seq _); [respects_auto untouched_side|].
  intros _. destruct key as [key|]; [|apply (respects_fail _)].
  apply (respects_bind _) with (P := λ be, Key be = recoveryKeyPath).
  - apply (respects_wrapping _). unfold SealWrapRecoveryKey.
    apply (respects_seq _); [respects_auto untouched_side|].
    intros blob. apply (respects_ret _). reflexivity.
  - intros be Hbe. apply (respects_logged _); [untouched_side|].
    apply (respects_wrapping _). apply physical_Put_untouched.
    rewrite Hbe. exact recoveryKeyPath_not_stored_keys.
Qed.

Lemma upgradeRecoveryKey_untouched :
  respects stored_keys_untouched (λ _, True) upgradeRecoveryKey.
Proof.
  unfold upgradeRecoveryKey.
  repeat first [ apply SetRecoveryKey_untouched
               | respects_step untouched_side ].
Qed.

(** C4. UpgradeKeys upgrades the recovery key first and the stored root
    key shares second.  When upgrading the recovery key fails, UpgradeKeys
    returns that very error and the stored-keys upgrade is not attempted:
    the persisted stored-keys value is unchanged and nothing read, wrote or
    announced it.  When it succeeds, UpgradeKeys goes on with the stored
    keys from the world the recovery-key upgrade left. *)
Theorem UpgradeKeys_recovery_key_first (w : World) :
  match upgradeRecoveryKey w with
  | Failed e w1 => UpgradeKeys w = Failed e w1 ∧ stored_keys_untouched w w1
  | Returned _ w1 =>
      UpgradeKeys w = upgradeStoredKeys w1 ∧ stored_keys_untouched w w1
  | Panicked msg => UpgradeKeys w = Panicked msg
  end.
Proof.
  pose proof (upgradeRecoveryKey_untouched w) as H.
  unfold UpgradeKeys, mbind, M_bind.
  destruct (upgradeRecoveryKey w) as [[] w1|e w1|msg].
  - split; [reflexivity | apply H].
  - split; [reflexivity | exact H].
  - reflexivity.
Qed.

(** ** Verifying the recovery key *)

Lemma byte_val_inj (a b : byte) : byte_val a = byte_val b → a = b.
Proof.
  unfold byte_val. intros H. apply N2Z.inj in H.
  assert (Some a = Some b) as [= ->]; [|reflexivity].
  rewrite <- (Byte.of_to_N a), <- (Byte.of_to_N b), H. reflexivity.
Qed.

Lemma byte_val_range (b : byte) : 0 ≤ byte_val b < 2 ^ 8.
Proof.
  unfold byte_val. pose proof (Byte.to_N_bounded b) as H.
  change (2 ^ 8) with 256. lia.
Qed.

Lemma below_pow2_log2 (a n : Z) : 0 < n → 0 ≤ a → (a < 2 ^ n ↔ Z.log2 a < n).
Proof.
  intros Hn Ha. destruct (Z.eq_dec a 0) as [->|Hne].
  - simpl. split; intros _; [exact Hn | apply Z.pow_pos_nonneg; lia].
  - apply Z.log2_lt_pow2. lia.
Qed.

Lemma lor_byte (a b : Z) :
  0 ≤ a < 2 ^ 8 → 0 ≤ b < 2 ^ 8 → 0 ≤ Z.lor a b < 2 ^ 8.
Proof.
  intros [Ha Ha'] [Hb Hb']. split; [apply Z.lor_nonneg; split; assumption|].
  apply below_pow2_log2; [lia | apply Z.lor_nonneg; split; assumption|].
  rewrite Z.log2_lor by assumption.
  apply below_pow2_log2 in Ha', Hb'; try lia.
Qed.

Lemma lxor_byte (a b : Z) :
  0 ≤ a < 2 ^ 8 → 0 ≤ b < 2 ^ 8 → 0 ≤ Z.lxor a b < 2 ^ 8.
Proof.
  intros [Ha Ha'] [Hb Hb'].
  assert (0 ≤ Z.lxor a b) as Hx by (apply Z.lxor_nonneg; lia).
  split; [exact Hx|].
  apply below_pow2_log2; [lia | exact Hx|].
  pose proof (Z.log2_lxor a b Ha Hb) as Hlog.
  apply below_pow2_log2 in Ha', Hb'; try lia.
Qed.

Lemma or_xor_range (x y : bytes) (v : Z) :
  0 ≤ v < 2 ^ 8 → 0 ≤ or_xor v x y < 2 ^ 8.
Proof.
  revert y v. induction x as [|a x IH]; intros [|b y] v Hv; simpl; try exact Hv.
  apply IH. apply lor_byte; [exact Hv|].
  apply lxor_byte; apply byte_val_range.
Qed.

Lemma or_xor_zero (x y : bytes) (v : Z) :
  length x = length y → (or_xor v x y = 0 ↔ v = 0 ∧ x = y).
Proof.
  revert y v. induction x as [|a x IH]; intros [|b y] v Hlen; simpl in *;
    try discriminate.
  - split; [intros ->; split; reflexivity | intros [-> _]; reflexivity].
  - injection Hlen as Hlen. rewrite (IH y _ Hlen).
    rewrite Z.lor_eq_0_iff, Z.lxor_eq_0_iff. split.
    + intros [[-> Hab] ->]. apply byte_val_inj in Hab as ->. split; reflexivity.
    + intros [-> [= -> ->]]. repeat split.
Qed.

Lemma ConstantTimeByteEq_zero (v : Z) :
  0 ≤ v < 2 ^ 8 → ConstantTimeByteEq v 0 = if decide (v = 0) then 1 else 0.
Proof.
  intros Hv. unfold ConstantTimeByteEq. rewrite Z.lxor_0_r.
  destruct (decide (v = 0)) as [->|Hne]; [reflexivity|].
  rewrite Z.mod_small by lia. rewrite Z.shiftr_div_pow2 by lia.
  apply Z.div_small. lia.
Qed.

(** The comparison that VerifyRecoveryKey relies on is byte equality. *)
Lemma ConstantTimeCompare_spec (x y : bytes) :
  ConstantTimeCompare x y = if decide (x = y) then 1 else 0.
Proof.
  unfold ConstantTimeCompare. case_bool_decide as Hlen.
  - destruct (decide (x = y)) as [->|]; [contradiction | reflexivity].
  - assert (length x = length y) as Hl by (destruct (decide (length x = length y)); [assumption|contradiction]).
    rewrite ConstantTimeByteEq_zero by (apply or_xor_range; lia).
    destruct (decide (or_xor 0 x y = 0)) as [H0|H0];
      destruct (decide (x = y)) as [Hxy|Hxy]; try reflexivity.
    + apply or_xor_zero in H0 as [_ ?]; [contradiction | exact Hl].
    + exfalso. apply H0. apply or_xor_zero; [exact Hl | split; [reflexivity | exact Hxy]].
Qed.

(** What a successful SetRecoveryKey did. *)
Lemma SetRecoveryKey_returned (w w1 : World) (key : bytes) :
  SetRecoveryKey (Some key) w = Returned tt w1 →
  ∃ c blob,
    core (d w) = Some c ∧
    Encrypt (access (d w)) (encryptions (access (d w))) key = Ok blob ∧
    core (d w1) = Some (with_physical
                          (with_kv (<[recoveryKeyPath := blob]> (kv (physical c)))
                             (physical c)) c) ∧
    Decrypt (access (d w1)) = Decrypt (access (d w)).
Proof.
  run_method. unfold Put.
  destruct (core (d w)) as [c|] eqn:Hcore; simpl; [|discriminate].
  destruct (Encrypt (access (d w)) (encryptions (access (d w))) key) as [blob|e] eqn:Henc;
    simpl; [|discriminate].
  rewrite Hcore. simpl.
  destruct (faults (physical c) (OpPut recoveryKeyPath)); simpl; [discriminate|].
  intros [= <-]. exists c, blob. repeat split.
Qed.

(** C8. After SetRecoveryKey(k) has succeeded on a backend that unwraps
    what it wrapped, and while the store serves reads of the recovery-key
    path, VerifyRecoveryKey of a non-nil candidate succeeds exactly when the
    candidate equals k byte for byte, and returns the mismatch error when it
    differs in length or in any byte.  A nil candidate fails with
    "recovery key to verify is nil" in every world. *)
Theorem VerifyRecoveryKey_iff_equal (w w1 : World) (k candidate : bytes) :
  SetRecoveryKey (Some k) w = Returned tt w1 →
  unwraps_own_wraps (access (d w)) →
  recovery_key_readable w1 →
  ((∃ w2, VerifyRecoveryKey (Some candidate) w1 = Returned tt w2) ↔ candidate = k) ∧
  (candidate ≠ k →
   ∃ w2, VerifyRecoveryKey (Some candidate) w1 = Failed mismatch_error w2) ∧
  (∀ w', VerifyRecoveryKey None w'
         = Failed (Errorf "recovery key to verify is nil") w').
Proof.
  intros Hset Hround Hread.
  destruct (SetRecoveryKey_returned _ _ _ Hset) as (c & blob & Hcore & Henc & Hcore1 & Hdec).
  specialize (Hread _ Hcore1). simpl in Hread.
  apply Hround in Henc.
  assert (Hrun : VerifyRecoveryKey (Some candidate) w1 =
                 if decide (candidate = k)
                 then Returned tt (traced [EvDecrypt blob; EvGet "physical" recoveryKeyPath] w1)
                 else Failed mismatch_error
                        (traced [EvDecrypt blob; EvGet "physical" recoveryKeyPath] w1)).
  { run_method. unfold Get.
    repeat (progress (simpl; rewrite ?Hcore1, ?Hread, ?lookup_insert_eq, ?Hdec, ?Henc)).
    rewrite ConstantTimeCompare_spec.
    destruct (decide (candidate = k)); reflexivity. }
  split; [|split].
  - rewrite Hrun. destruct (decide (candidate = k)) as [Heq|Hne].
    + split; [intros _; exact Heq | intros _; eexists; reflexivity].
    + split; [intros [w2 [=]] | intros Heq; contradiction].
  - intros Hne. rewrite Hrun. destruct (decide (candidate = k)); [contradiction|].
    eexists. reflexivity.
  - intros w'. reflexivity.
Qed.

Lemma VerifyRecoveryKey_iff_equal_witness :
  ((∃ w2, VerifyRecoveryKey (Some Sample.stored_key) Sample.key_set_world
          = Returned tt w2) ↔ Sample.stored_key = Sample.stored_key) ∧
  (Sample.stored_key ≠ Sample.stored_key →
   ∃ w2, VerifyRecoveryKey (Some Sample.stored_key) Sample.key_set_world
         = Failed mismatch_error w2) ∧
  (∀ w', VerifyRecoveryKey None w'
         = Failed (Errorf "recovery key to verify is nil") w').
Proof.
  apply (VerifyRecoveryKey_iff_equal Sample.bound_world Sample.key_set_world
           Sample.stored_key Sample.stored_key).
  - vm_compute. reflexivity.
  - intros n pt blob [= <-]. reflexivity.
  - intros c [= <-]. reflexivity.
Defined.

(** ** One pass of the health check *)

Lemma alter_middle {A} (f : A → A) (pre : list A) (x : A) (rest : list A) :
  alter f (length pre) (pre ++ x :: rest) = pre ++ f x :: rest.
Proof. induction pre as [|a pre IH]; simpl; [reflexivity | f_equal; exact IH]. Qed.

Lemma probe_spec (t : Z) (testVal : bytes) (w : World) (c : Core)
    (pre : list SealInfo) (x : SealInfo) (rest : list SealInfo) (acc : bool) :
  core (d w) = Some c →
  SealInfos (access (d w)) = pre ++ x :: rest →
  ∃ w' x',
    probe t testVal (length pre) acc w
    = Returned (encrypt_fails testVal x || acc) w' ∧
    core (d w') = Some c ∧
    SealInfos (access (d w')) = pre ++ x' :: rest ∧
    probed testVal x x'.
Proof.
  intros Hcore Hl. unfold encrypt_fails, probed.
  run_method. unfold seal_at, time_Now, ticker_Reset.
  repeat (progress (simpl; rewrite ?Hl, ?Hcore, ?alter_middle, ?list_lookup_middle by reflexivity)).
  destruct (w_Encrypt x testVal) as [ciphertext|e] eqn:Henc.
  - destruct (w_Decrypt x ciphertext) as [plaintext err] eqn:Hdec.
    destruct err as [e|], (bytes_Equal testVal plaintext) eqn:Heq, (Healthy_ x) eqn:Hh;
      repeat (progress (simpl; rewrite ?Hl, ?Hcore, ?Hh, ?alter_middle,
                          ?list_lookup_middle by reflexivity));
      eexists _, _; (split; [reflexivity|]); simpl;
      rewrite ?Hl, ?alter_middle; repeat split; try assumption;
      unfold round_trips; rewrite Henc, Hdec; simpl; rewrite Heq; reflexivity.
  - destruct (Healthy_ x) eqn:Hh;
      repeat (progress (simpl; rewrite ?Hl, ?Hcore, ?Hh, ?alter_middle,
                          ?list_lookup_middle by reflexivity));
      eexists _, _; (split; [reflexivity|]); simpl;
      rewrite ?Hl, ?alter_middle; repeat split; try assumption;
      unfold round_trips; rewrite Henc; reflexivity.
Qed.

Lemma probes_spec (t : Z) (testVal : bytes) (rest : list SealInfo) :
  ∀ (pre : list SealInfo) (w : World) (c : Core) (acc : bool),
    core (d w) = Some c →
    SealInfos (access (d w)) = pre ++ rest →
    ∃ w' rest',
      for_each (probe t testVal) (seq (length pre) (length rest)) acc w
      = Returned (existsb (encrypt_fails testVal) rest || acc) w' ∧
      core (d w') = Some c ∧
      allSealsHealthy (d w') = allSealsHealthy (d w) ∧
      SealInfos (access (d w')) = pre ++ rest' ∧
      Forall2 (probed testVal) rest rest'.
Proof.
  induction rest as [|x rest IH]; intros pre w c acc Hcore Hl.
  - exists w, []. simpl. repeat split; try assumption. constructor.
  - destruct (probe_spec t testVal w c pre x rest acc Hcore Hl)
      as (w1 & x' & Hprobe & Hcore1 & Hl1 & Hx).
    assert (Hflag : allSealsHealthy (d w1) = allSealsHealthy (d w)).
    { assert (Hp : respects same_health_flag (λ _, True)
                     (probe t testVal (length pre) acc))
        by respects_auto field_side.
      exact (proj1 (respects_returned same_health_flag _ _ _ _ _ Hp Hprobe)). }
    rewrite (cons_middle x' pre rest), app_assoc in Hl1.
    destruct (IH (pre ++ [x']) w1 c (encrypt_fails testVal x || acc) Hcore1 Hl1)
      as (w2 & rest' & Hrest & Hcore2 & Hflag2 & Hl2 & Hall).
    exists w2, (x' :: rest'). simpl.
    unfold mbind, M_bind. rewrite Hprobe.
    rewrite length_app in Hrest. simpl in Hrest.
    rewrite Nat.add_1_r in Hrest. rewrite Hrest.
    split; [f_equal; destruct (encrypt_fails testVal x), (existsb _ rest), acc; reflexivity|].
    split; [exact Hcore2|]. split; [congruence|].
    split; [rewrite Hl2, <- app_assoc; reflexivity|].
    constructor; assumption.
Qed.

Lemma probed_flags (testVal : bytes) (l l' : list SealInfo) :
  Forall2 (probed testVal) l l' →
  Healthy_ <$> l' = round_trips testVal <$> l.
Proof.
  induction 1 as [|x x' l l' (Hx & _) _ IH]; [reflexivity|].
  rewrite !fmap_cons. f_equal; assumption.
Qed.

Lemma negb_existsb {A} (f : A → bool) (l : list A) :
  negb (existsb f l) = forallb (λ x, negb (f x)) l.
Proof.
  induction l as [|x l IH]; simpl; [reflexivity|].
  rewrite negb_orb, IH. reflexivity.
Qed.

(** C1, as the code has it.  On a bound manager a health-check pass
    returns; afterwards every backend's Healthy flag tells whether its
    probe encrypted the test value and decrypted it back, but the aggregate
    flag that Healthy() returns only tells whether every encrypt succeeded:
    a decrypt error or a round-trip mismatch marks the backend unhealthy and
    leaves the aggregate flag true. *)
Theorem check_health_flags (t : Z) (n : nat) (w : World) (c : Core) :
  core (d w) = Some c →
  ∃ w',
    check t n w = Returned tt w' ∧
    Healthy w' = Returned
                   (forallb (λ x, negb (encrypt_fails (heartbeat n) x))
                      (SealInfos (access (d w)))) w' ∧
    Healthy_ <$> SealInfos (access (d w'))
    = round_trips (heartbeat n) <$> SealInfos (access (d w)).
Proof.
  intros Hcore.
  destruct (probes_spec t (heartbeat n) (SealInfos (access (d w))) [] w c false
              Hcore eq_refl) as (w1 & l' & Hrun & Hcore1 & _ & Hl & Hall).
  simpl in Hrun, Hl.
  eexists. split; [|split].
  - unfold check, mbind, M_bind, get_d. rewrite Hrun. reflexivity.
  - unfold Healthy, mbind, M_bind, get_d, mret, M_ret. simpl. f_equal.
    rewrite orb_false_r. apply negb_existsb.
  - simpl. rewrite Hl. apply probed_flags. exact Hall.
Qed.

Lemma check_health_flags_witness :
  ∃ w',
    check 0 7 Sample.no_decrypt_world = Returned tt w' ∧
    Healthy w' = Returned true w' ∧
    Healthy_ <$> SealInfos (access (d w')) = [false].
Proof.
  exact (check_health_flags 0 7 Sample.no_decrypt_world Sample.empty_server eq_refl).
Defined.

(** The same pass over two backends, one that garbles the payload and one
    that works: the aggregate flag is true, the per-backend flags are not
    all true. *)
Example check_two_seals :
  ∃ w',
    check 0 7 (Sample.world Sample.two_seals (Some Sample.empty_server))
    = Returned tt w' ∧
    allSealsHealthy (d w') = true ∧
    Healthy_ <$> SealInfos (access (d w')) = [true; false].
Proof. eexists. split; [vm_compute; reflexivity | split; reflexivity]. Qed.

(** * Further properties of the manager *)

(** ** What the health check leaves alone, and what leaves it alone *)

#[global] Instance only_health_state_preorder : PreOrder only_health_state.
Proof.
  split.
  - intros w. repeat split. exists []. split; [reflexivity | constructor].
  - intros a b c (H1 & H2 & H3 & H4 & H5 & e1 & T1 & F1)
                 (G1 & G2 & G3 & G4 & G5 & e2 & T2 & F2).
    repeat split; try congruence.
    exists (e2 ++ e1). split.
    + rewrite T2, T1. apply app_assoc.
    + apply Forall_app. split; assumption.
Qed.

Ltac only_health_side :=
  intros; repeat split;
  first [ exists []; split; [reflexivity | constructor]
        | eexists [_]; split; [reflexivity | repeat constructor]
        | eexists [_; _]; split; [reflexivity | repeat constructor] ].

(** X1. A pass of the health check never touches durable storage or the
    configuration caches: whatever the backends answer, the core with its
    stores, both caches, the heap of configurations and the stop channel
    are as before, and the pass makes no storage call and no wrap or unwrap
    through the manager's access; its only traces are logs, gauges and
    ticker resets. *)
Theorem check_touches_only_health_state (t : Z) (n : nat) (w : World) :
  match check t n w with
  | Returned _ w' => only_health_state w w'
  | Failed _ w' => only_health_state w w'
  | Panicked _ => True
  end.
Proof.
  assert (H : respects only_health_state (λ _, True) (check t n)).
  { unfold check. respects_auto only_health_side. }
  specialize (H w). destruct (check t n w); [apply H | exact H | exact I].
Qed.

#[global] Instance same_seal_infos_preorder : PreOrder same_seal_infos.
Proof.
  split; [intros w; reflexivity | intros a b c Hab Hbc].
  unfold same_seal_infos in *. congruence.
Qed.

Lemma access_Encrypt_same_seal_infos (pt : bytes) :
  respects same_seal_infos (λ _, True) (access_Encrypt pt).
Proof.
  intros w. run_method.
  destruct (Encrypt (access (d w)) (encryptions (access (d w))) pt);
    simpl; [split; [reflexivity | exact I] | reflexivity].
Qed.

Lemma call_same_seal_infos (c : Call) :
  is_Tick c = false → respects same_seal_infos (λ _, True) (call c).
Proof.
  destruct c; intros Hc; try discriminate; unfold call;
    repeat first [ apply access_Encrypt_same_seal_infos
                 | respects_step field_side ].
Qed.

(** X2. Only the health loop changes the per-backend health snapshots: over
    any run of calls that contains no tick (configuration and key
    operations, key upgrades, starting and stopping the loop) every
    backend's Healthy flag and timestamps are what they were. *)
Theorem seal_infos_change_only_on_tick (w w' : World) (cs : list Call) :
  Forall (λ c, is_Tick c = false) cs →
  run cs w = Some w' →
  SealInfos (access (d w')) = SealInfos (access (d w)).
Proof.
  intros Hcs Hrun.
  apply (run_respects same_seal_infos (λ c, is_Tick c = false)) with (cs := cs);
    [apply call_same_seal_infos | exact Hcs | exact Hrun].
Qed.

Lemma seal_infos_change_only_on_tick_witness :
  SealInfos (access (d (Sample.after Sample.startup (Sample.world Sample.two_seals None))))
  = SealInfos (access (d (Sample.world Sample.two_seals None))).
Proof.
  apply (seal_infos_change_only_on_tick
           (Sample.world Sample.two_seals None)
           (Sample.after Sample.startup (Sample.world Sample.two_seals None))
           Sample.startup).
  - repeat constructor.
  - vm_compute. reflexivity.
Defined.

(** ** The configuration caches *)

(** Runs a method on a world, using the equations in the context. *)
Ltac run_on_world :=
  run_method;
  unfold Get, Put, Delete, store_Type, load, new_SealConfig;
  repeat (progress (simpl;
                    repeat match goal with
                           | H : _ = _ |- _ => progress rewrite H
                           end)).

Lemma lookup_fresh {A} (h : list A) (x : A) : (h ++ [x]) !! length h = Some x.
Proof. rewrite lookup_app_r by lia. rewrite Nat.sub_diag. reflexivity. Qed.

Lemma lookup_old {A} (h : list A) (x : A) (a : nat) (y : A) :
  h !! a = Some y → (h ++ [x]) !! a = Some y.
Proof. intros H. rewrite lookup_app_l; [exact H | eapply lookup_lt_Some, H]. Qed.

(** X3. A cached configuration is never handed out itself: BarrierConfig
    and RecoveryConfig on a filled cache return a fresh copy at a new
    address, without any storage call and even when no core is bound, and
    the cache still holds the original after the caller has overwritten the
    Type of the copy it got. *)
Theorem cached_config_is_cloned (w : World) (a : nat) (c : SealConfig) :
  heap w !! a = Some c →
  (barrierConfig (d w) = Some a →
   ∃ p w1,
     BarrierConfig w = Returned (Some p) w1 ∧
     p ≠ a ∧ heap w1 !! p = Some c ∧ d w1 = d w ∧ trace w1 = trace w ∧
     ∀ t, ∃ w2 q w3,
       store_Type (Some p) t w1 = Returned tt w2 ∧
       BarrierConfig w2 = Returned (Some q) w3 ∧
       heap w3 !! q = Some c) ∧
  (recoveryConfig (d w) = Some a →
   ∃ p w1,
     RecoveryConfig w = Returned (Some p) w1 ∧
     p ≠ a ∧ heap w1 !! p = Some c ∧ d w1 = d w ∧ trace w1 = trace w ∧
     ∀ t, ∃ w2 q w3,
       store_Type (Some p) t w1 = Returned tt w2 ∧
       RecoveryConfig w2 = Returned (Some q) w3 ∧
       heap w3 !! q = Some c).
Proof.
  intros Hheap. apply lookup_lt_Some in Hheap as Hlt.
  assert (Hne : length (heap w) ≠ a) by lia.
  assert (Hkeep : ∀ t, (<[length (heap w) := set_Type t c]> (heap w ++ [c])) !! a = Some c).
  { intros t. rewrite list_lookup_insert_ne by exact Hne.
    apply lookup_old. exact Hheap. }
  split; intros Hcache.
  - exists (length (heap w)), (with_heap (heap w ++ [c]) w).
    split; [run_on_world; reflexivity|].
    split; [exact Hne|]. split; [apply lookup_fresh|].
    split; [reflexivity|]. split; [reflexivity|].
    intros t. eexists _, _, _.
    split; [unfold store_Type; simpl; rewrite lookup_fresh; reflexivity|].
    split.
    + run_method. unfold load, new_SealConfig. simpl.
      rewrite Hcache. simpl. rewrite Hkeep. reflexivity.
    + simpl. apply lookup_fresh.
  - exists (length (heap w)), (with_heap (heap w ++ [c]) w).
    split; [run_on_world; reflexivity|].
    split; [exact Hne|]. split; [apply lookup_fresh|].
    split; [reflexivity|]. split; [reflexivity|].
    intros t. eexists _, _, _.
    split; [unfold store_Type; simpl; rewrite lookup_fresh; reflexivity|].
    split.
    + run_method. unfold load, new_SealConfig. simpl.
      rewrite Hcache. simpl. rewrite Hkeep. reflexivity.
    + simpl. apply lookup_fresh.
Qed.

Lemma cached_config_is_cloned_witness :
  ∃ p w1,
    BarrierConfig Sample2.cached_world = Returned (Some p) w1 ∧
    p ≠ 0%nat ∧ heap w1 !! p = Some Sample.callers_config ∧
    d w1 = d Sample2.cached_world ∧ trace w1 = trace Sample2.cached_world ∧
    ∀ t, ∃ w2 q w3,
      store_Type (Some p) t w1 = Returned tt w2 ∧
      BarrierConfig w2 = Returned (Some q) w3 ∧
      heap w3 !! q = Some Sample.callers_config.
Proof.
  refine (proj1 (cached_config_is_cloned Sample2.cached_world 0
                   Sample.callers_config _) _); reflexivity.
Defined.



(** A stored configuration of another type is refused. *)
Example BarrierConfig_refuses_foreign_type :
  ∃ w', BarrierConfig Sample2.foreign_world
        = Failed (barrier_type_mismatch "shamir" "transit") w' ∧
        barrierConfig (d w') = None.
Proof. eexists. split; [vm_compute; reflexivity | reflexivity]. Qed.

(** X5. With an empty cache and a bound core, BarrierConfig returns nil
    without an error when nothing is stored (not initialized), and an error
    wrapped as "failed to read seal configuration" and logged when the read
    is refused or the stored bytes do not decode; in all three cases the
    manager is left as it was, cache empty. *)
Theorem BarrierConfig_without_usable_entry (w : World) (c : Core) :
  barrierConfig (d w) = None →
  core (d w) = Some c →
  (Get (physical c) barrierSealConfigPath = Ok None →
   BarrierConfig w
   = Returned None
       (traced [EvLog "info" "seal configuration missing, not initialized";
                EvGet "physical" barrierSealConfigPath] w)) ∧
  (∀ e, Get (physical c) barrierSealConfigPath = Fail e →
        ∃ e', BarrierConfig w
              = Failed (Wrapf "failed to read seal configuration" e')
                  (traced [EvLog "error" "failed to read seal configuration";
                           EvGet "physical" barrierSealConfigPath] w)) ∧
  (∀ pe e, Get (physical c) barrierSealConfigPath = Ok (Some pe) →
           decodeConfig (pkg w) (Value pe) = Fail e →
           ∃ e', BarrierConfig w
                 = Failed (Wrapf "failed to read seal configuration" e')
                     (traced [EvLog "error" "failed to read seal configuration";
                              EvGet "physical" barrierSealConfigPath] w)).
Proof.
  intros Hcache Hcore. split; [|split].
  - intros Hget. run_method.
    repeat (progress (simpl; rewrite ?Hcache, ?Hcore, ?Hget)). reflexivity.
  - intros e Hget. eexists. run_method.
    repeat (progress (simpl; rewrite ?Hcache, ?Hcore, ?Hget)). reflexivity.
  - intros pe e Hget Hdec. eexists. run_method.
    repeat (progress (simpl; rewrite ?Hcache, ?Hcore, ?Hget, ?Hdec)). reflexivity.
Qed.

Lemma BarrierConfig_without_usable_entry_witness :
  BarrierConfig Sample.bound_world
  = Returned None
      (traced [EvLog "info" "seal configuration missing, not initialized";
               EvGet "physical" barrierSealConfigPath] Sample.bound_world).
Proof.
  refine (proj1 (BarrierConfig_without_usable_entry Sample.bound_world
                   Sample.empty_server _ _) _); reflexivity.
Defined.

Lemma SetBarrierConfig_returns (w : World) (c : Core) (a : nat) (conf : SealConfig) :
  core (d w) = Some c →
  heap w !! a = Some conf →
  faults (physical c) (OpPut barrierSealConfigPath) = None →
  SetBarrierConfig (Some a) w = Returned tt (after_SetBarrierConfig w c a conf).
Proof.
  intros Hcore Hheap Hput. apply lookup_lt_Some in Hheap as Hlt.
  run_method. unfold store_Type, load, Put, new_SealConfig.
  repeat (progress (simpl; rewrite ?Hcore, ?Hheap, ?Hput;
                    rewrite ?list_lookup_insert_eq by exact Hlt)).
  rewrite length_insert. reflexivity.
Qed.

(** X6. After a successful SetBarrierConfig(conf) the store holds the
    encoding of the configuration with the manager's type stamped in, and
    the cache holds a copy of its own: whatever the caller writes into its
    object afterwards, BarrierConfig returns the stamped configuration, and
    does so without a storage call. *)
Theorem SetBarrierConfig_then_BarrierConfig
    (w : World) (c : Core) (a : nat) (conf : SealConfig) :
  core (d w) = Some c →
  heap w !! a = Some conf →
  faults (physical c) (OpPut barrierSealConfigPath) = None →
  ∃ w1 c1,
    SetBarrierConfig (Some a) w = Returned tt w1 ∧
    core (d w1) = Some c1 ∧
    kv (physical c1)
    = <[barrierSealConfigPath :=
          encodeConfig (pkg w) (set_Type (barrierSealConfigType (d w)) conf)]>
        (kv (physical c)) ∧
    ∀ conf', ∃ q w3,
      BarrierConfig (caller_writes a conf' w1) = Returned (Some q) w3 ∧
      heap w3 !! q = Some (set_Type (barrierSealConfigType (d w)) conf) ∧
      trace w3 = trace w1.
Proof.
  intros Hcore Hheap Hput. apply lookup_lt_Some in Hheap as Hlt.
  eexists _, _. split; [apply SetBarrierConfig_returns; eassumption|].
  split; [reflexivity|]. split; [reflexivity|].
  intros conf'. eexists _, _. split.
  - run_method. unfold load, new_SealConfig. simpl.
    rewrite list_lookup_insert_ne by lia.
    rewrite lookup_app_r by (rewrite length_insert; lia).
    rewrite length_insert, Nat.sub_diag. simpl. reflexivity.
  - split; [simpl; apply lookup_fresh | reflexivity].
Qed.

Lemma SetBarrierConfig_then_BarrierConfig_witness :
  ∃ w1 c1,
    SetBarrierConfig (Some 0%nat) Sample.caller_world = Returned tt w1 ∧
    core (d w1) = Some c1 ∧
    kv (physical c1)
    = <[barrierSealConfigPath :=
          encodeConfig (pkg Sample.caller_world)
            (set_Type (barrierSealConfigType (d Sample.caller_world))
               Sample.callers_config)]>
        (kv (physical Sample.empty_server)) ∧
    ∀ conf', ∃ q w3,
      BarrierConfig (caller_writes 0 conf' w1) = Returned (Some q) w3 ∧
      heap w3 !! q = Some (set_Type (barrierSealConfigType (d Sample.caller_world))
                             Sample.callers_config) ∧
      trace w3 = trace w1.
Proof.
  apply (SetBarrierConfig_then_BarrierConfig Sample.caller_world
           Sample.empty_server 0 Sample.callers_config); reflexivity.
Defined.

(** X7. When the store refuses the write, SetBarrierConfig returns an error
    and neither the cache nor the stored data change. *)
Theorem SetBarrierConfig_failed_persist
    (w : World) (c : Core) (a : nat) (conf : SealConfig) (e : error) :
  core (d w) = Some c →
  heap w !! a = Some conf →
  faults (physical c) (OpPut barrierSealConfigPath) = Some e →
  ∃ e' w',
    SetBarrierConfig (Some a) w = Failed e' w' ∧
    d w' = d w.
Proof.
  intros Hcore Hheap Hput. apply lookup_lt_Some in Hheap as Hlt.
  eexists _, _. split.
  - run_method. unfold store_Type, load, Put, new_SealConfig.
    repeat (progress (simpl; rewrite ?Hcore, ?Hheap, ?Hput;
                      rewrite ?list_lookup_insert_eq by exact Hlt)).
    reflexivity.
  - reflexivity.
Qed.

Lemma SetBarrierConfig_failed_persist_witness :
  ∃ e' w',
    SetBarrierConfig (Some 0%nat) Sample.read_only_world = Failed e' w' ∧
    d w' = d Sample.read_only_world.
Proof.
  apply (SetBarrierConfig_failed_persist Sample.read_only_world
           Sample.read_only_server 0 Sample.callers_config
           (Errorf "read-only storage")); reflexivity.
Defined.

(** X8. Clearing the barrier cache does not uninitialize: after a
    successful SetBarrierConfig, ClearBarrierConfig empties the cache and
    leaves the stored entry, and the next BarrierConfig reads the entry
    back from storage and returns the stamped configuration (for a codec
    that decodes what it encoded and a store that serves the read). *)
Theorem ClearBarrierConfig_keeps_stored_config
    (w : World) (c : Core) (a : nat) (conf : SealConfig) :
  core (d w) = Some c →
  heap w !! a = Some conf →
  faults (physical c) (OpPut barrierSealConfigPath) = None →
  faults (physical c) (OpGet barrierSealConfigPath) = None →
  decodeConfig (pkg w)
    (encodeConfig (pkg w) (set_Type (barrierSealConfigType (d w)) conf))
  = Ok (set_Type (barrierSealConfigType (d w)) conf) →
  ∃ w1 w2 p w3,
    SetBarrierConfig (Some a) w = Returned tt w1 ∧
    ClearBarrierConfig w1 = Returned tt w2 ∧
    barrierConfig (d w2) = None ∧
    core (d w2) = core (d w1) ∧
    trace w2 = trace w1 ∧
    BarrierConfig w2 = Returned (Some p) w3 ∧
    heap w3 !! p = Some (set_Type (barrierSealConfigType (d w)) conf) ∧
    trace w3 = EvGet "physical" barrierSealConfigPath :: trace w2.
Proof.
  intros Hcore Hheap Hput Hget Hcodec. apply lookup_lt_Some in Hheap as Hlt.
  eexists _, _, _, _. split; [apply SetBarrierConfig_returns; eassumption|].
  split; [run_method; reflexivity|].
  split; [reflexivity|]. split; [reflexivity|]. split; [reflexivity|].
  split.
  - run_method. unfold Get, load, new_SealConfig.
    repeat (progress (simpl; rewrite ?Hget, ?lookup_insert_eq, ?Hcodec, ?lookup_fresh)).
    rewrite bool_decide_false by (intros H; apply H; reflexivity).
    simpl. rewrite lookup_fresh. reflexivity.
  - split; [|reflexivity]. simpl. apply lookup_fresh.
Qed.

Lemma ClearBarrierConfig_keeps_stored_config_witness :
  ∃ w1 w2 p w3,
    SetBarrierConfig (Some 0%nat) Sample.caller_world = Returned tt w1 ∧
    ClearBarrierConfig w1 = Returned tt w2 ∧
    barrierConfig (d w2) = None ∧
    core (d w2) = core (d w1) ∧
    trace w2 = trace w1 ∧
    BarrierConfig w2 = Returned (Some p) w3 ∧
    heap w3 !! p = Some (set_Type (barrierSealConfigType (d Sample.caller_world))
                           Sample.callers_config) ∧
    trace w3 = EvGet "physical" barrierSealConfigPath :: trace w2.
Proof.
  apply (ClearBarrierConfig_keeps_stored_config Sample.caller_world
           Sample.empty_server 0 Sample.callers_config); reflexivity.
Defined.

(** ** Migration of the recovery configuration *)

Lemma migrateRecoveryConfig_returns (w : World) (c : Core) (v : bytes) :
  core (d w) = Some c →
  migration_can_run c →
  kv (barrier c) !! recoverySealConfigPath = Some v →
  migrateRecoveryConfig w = Returned tt (after_migration w c v).
Proof.
  intros Hcore (Hget & Hput & Hdel) Hv.
  run_method. unfold Get, Put, Delete.
  repeat (progress (simpl; rewrite ?Hcore, ?Hget, ?Hput, ?Hdel, ?Hv)).
  reflexivity.
Qed.

Lemma migrateRecoveryConfig_nothing_to_do (w : World) (c : Core) :
  core (d w) = Some c →
  faults (barrier c) (OpGet recoverySealConfigPath) = None →
  kv (barrier c) !! recoverySealConfigPath = None →
  migrateRecoveryConfig w
  = Returned tt (traced [EvGet "barrier" recoverySealConfigPath] w).
Proof.
  intros Hcore Hget Hv. run_method. unfold Get.
  repeat (progress (simpl; rewrite ?Hcore, ?Hget, ?Hv)). reflexivity.
Qed.

(** X9. migrateRecoveryConfig moves the legacy recovery configuration: when
    the barrier holds an entry at the legacy path and the stores serve the
    calls, the entry's bytes are written at the plaintext path of the
    physical store and the legacy entry is deleted; every other path of
    both stores is untouched.  Without a legacy entry it changes nothing,
    so running it again after a completed migration is a no-op. *)
Theorem migrateRecoveryConfig_moves_legacy_entry (w : World) (c : Core) :
  core (d w) = Some c →
  migration_can_run c →
  (∀ v, kv (barrier c) !! recoverySealConfigPath = Some v →
        ∃ w1 c1,
          migrateRecoveryConfig w = Returned tt w1 ∧
          core (d w1) = Some c1 ∧
          kv (physical c1) !! recoverySealConfigPlaintextPath = Some v ∧
          kv (barrier c1) !! recoverySealConfigPath = None ∧
          (∀ p, p ≠ recoverySealConfigPlaintextPath →
                kv (physical c1) !! p = kv (physical c) !! p) ∧
          (∀ p, p ≠ recoverySealConfigPath →
                kv (barrier c1) !! p = kv (barrier c) !! p) ∧
          ∃ w2, migrateRecoveryConfig w1 = Returned tt w2 ∧ d w2 = d w1) ∧
  (kv (barrier c) !! recoverySealConfigPath = None →
   ∃ w1, migrateRecoveryConfig w = Returned tt w1 ∧ d w1 = d w).
Proof.
  intros Hcore Hrun. split.
  - intros v Hv. eexists _, _.
    split; [apply migrateRecoveryConfig_returns; eassumption|].
    split; [reflexivity|]. simpl.
    split; [apply lookup_insert_eq|]. split; [apply lookup_delete_eq|].
    split; [intros p Hp; apply lookup_insert_ne; congruence|].
    split; [intros p Hp; apply lookup_delete_ne; congruence|].
    eexists. split; [apply (migrateRecoveryConfig_nothing_to_do _ (migrated_core c v));
      [reflexivity | apply Hrun | apply lookup_delete_eq] | reflexivity].
  - intros Hv. eexists. split; [apply (migrateRecoveryConfig_nothing_to_do _ c);
      [assumption | apply Hrun | assumption] | reflexivity].
Qed.

Lemma migrateRecoveryConfig_moves_legacy_entry_witness :
  ∃ w1 c1,
    migrateRecoveryConfig Sample.legacy_world = Returned tt w1 ∧
    core (d w1) = Some c1 ∧
    kv (physical c1) !! recoverySealConfigPlaintextPath = Some Sample.recovery_bytes ∧
    kv (barrier c1) !! recoverySealConfigPath = None ∧
    (∀ p, p ≠ recoverySealConfigPlaintextPath →
          kv (physical c1) !! p = kv (physical Sample.legacy_server) !! p) ∧
    (∀ p, p ≠ recoverySealConfigPath →
          kv (barrier c1) !! p = kv (barrier Sample.legacy_server) !! p) ∧
    ∃ w2, migrateRecoveryConfig w1 = Returned tt w2 ∧ d w2 = d w1.
Proof.
  refine (proj1 (migrateRecoveryConfig_moves_legacy_entry Sample.legacy_world
                   Sample.legacy_server _ _) Sample.recovery_bytes _);
    [reflexivity | repeat split | reflexivity].
Defined.

(** X10. A migration that fails half way loses nothing.  When the write to
    the plaintext path is refused, the error is wrapped as "failed to write
    recovery seal configuration during migration" and both stores are as
    before; when the delete of the legacy entry is refused, the error is
    wrapped as "failed to delete old recovery seal configuration during
    migration", the copy has been written and the legacy entry is still
    there.  In both cases the deferred "done migrating" log is written. *)
Theorem migrateRecoveryConfig_partial_failure
    (w : World) (c : Core) (v : bytes) (e : error) :
  core (d w) = Some c →
  faults (barrier c) (OpGet recoverySealConfigPath) = None →
  kv (barrier c) !! recoverySealConfigPath = Some v →
  (faults (physical c) (OpPut recoverySealConfigPlaintextPath) = Some e →
   ∃ w',
     migrateRecoveryConfig w
     = Failed (Wrapf "failed to write recovery seal configuration during migration" e) w' ∧
     d w' = d w ∧
     head (trace w') = Some (EvLog "debug" "done migrating recovery seal configuration")) ∧
  (faults (physical c) (OpPut recoverySealConfigPlaintextPath) = None →
   faults (barrier c) (OpDelete recoverySealConfigPath) = Some e →
   ∃ w' c',
     migrateRecoveryConfig w
     = Failed (Wrapf "failed to delete old recovery seal configuration during migration" e) w' ∧
     core (d w') = Some c' ∧
     kv (physical c') = <[recoverySealConfigPlaintextPath := v]> (kv (physical c)) ∧
     barrier c' = barrier c ∧
     head (trace w') = Some (EvLog "debug" "done migrating recovery seal configuration")).
Proof.
  intros Hcore Hget Hv. split.
  - intros Hput. eexists. split; [run_method; unfold Get, Put, Delete;
      repeat (progress (simpl; rewrite ?Hcore, ?Hget, ?Hput, ?Hv)); reflexivity|].
    split; reflexivity.
  - intros Hput Hdel. eexists _, _. split; [run_method; unfold Get, Put, Delete;
      repeat (progress (simpl; rewrite ?Hcore, ?Hget, ?Hput, ?Hdel, ?Hv)); reflexivity|].
    repeat split.
Qed.

Lemma migrateRecoveryConfig_partial_failure_witness :
  (faults (physical Sample2.stuck_server) (OpPut recoverySealConfigPlaintextPath)
   = Some (Errorf "read-only storage") →
   ∃ w',
     migrateRecoveryConfig Sample2.stuck_world
     = Failed (Wrapf "failed to write recovery seal configuration during migration"
                 (Errorf "read-only storage")) w' ∧
     d w' = d Sample2.stuck_world ∧
     head (trace w') = Some (EvLog "debug" "done migrating recovery seal configuration")) ∧
  (faults (physical Sample2.stuck_server) (OpPut recoverySealConfigPlaintextPath) = None →
   faults (barrier Sample2.stuck_server) (OpDelete recoverySealConfigPath)
   = Some (Errorf "read-only storage") →
   ∃ w' c',
     migrateRecoveryConfig Sample2.stuck_world
     = Failed (Wrapf "failed to delete old recovery seal configuration during migration"
                 (Errorf "read-only storage")) w' ∧
     core (d w') = Some c' ∧
     kv (physical c')
     = <[recoverySealConfigPlaintextPath := Sample.recovery_bytes]>
         (kv (physical Sample2.stuck_server)) ∧
     barrier c' = barrier Sample2.stuck_server ∧
     head (trace w') = Some (EvLog "debug" "done migrating recovery seal configuration")).
Proof.
  apply (migrateRecoveryConfig_partial_failure Sample2.stuck_world
           Sample2.stuck_server Sample.recovery_bytes (Errorf "read-only storage"));
    reflexivity.
Defined.

(** SetRecoveryConfig on a bound manager starts with the migration. *)
Lemma SetRecoveryConfig_after_migration (w w1 : World) (c : Core) (conf : ptr) :
  core (d w) = Some c →
  migrateRecoveryConfig w = Returned tt w1 →
  SetRecoveryConfig conf w
  = match conf with
    | None => modify_d (with_recoveryConfig None) w1
    | Some _ =>
        (store_Type conf RecoverySealConfigType;;
         logged "error" "failed to write recovery seal configuration"
           (wrapping "failed to write recovery seal configuration"
              (SetPhysicalRecoverySealConfig conf));;
         clone ← Clone conf;
         modify_d (with_recoveryConfig clone)) w1
    end.
Proof.
  intros Hcore Hmig. unfold SetRecoveryConfig, checkCore.
  unfold mbind, M_bind, get_d. rewrite Hcore. unfold mret, M_ret.
  rewrite Hmig. destruct conf; reflexivity.
Qed.

(** X11. Clearing the recovery cache runs the migration first.  On a bound
    manager ClearRecoveryConfig moves a legacy entry to the plaintext path
    and then empties the cache; when the migration cannot read the barrier
    it returns that error, wrapped, and the cache keeps what it held. *)
Theorem ClearRecoveryConfig_migrates_first (w : World) (c : Core) :
  core (d w) = Some c →
  (∀ v, migration_can_run c →
        kv (barrier c) !! recoverySealConfigPath = Some v →
        ∃ w',
          ClearRecoveryConfig w = Returned tt w' ∧
          recoveryConfig (d w') = None ∧
          core (d w') = Some (migrated_core c v)) ∧
  (∀ e, faults (barrier c) (OpGet recoverySealConfigPath) = Some e →
        ∃ w',
          ClearRecoveryConfig w
          = Failed (Wrapf "failed to read old recovery seal configuration during migration" e) w' ∧
          d w' = d w).
Proof.
  intros Hcore. split.
  - intros v Hrun Hv. eexists. split.
    + unfold ClearRecoveryConfig.
      rewrite (SetRecoveryConfig_after_migration w _ c None Hcore
                 (migrateRecoveryConfig_returns w c v Hcore Hrun Hv)).
      reflexivity.
    + split; reflexivity.
  - intros e Hget. eexists. split.
    + run_method. unfold Get.
      repeat (progress (simpl; rewrite ?Hcore, ?Hget)). reflexivity.
    + reflexivity.
Qed.

Lemma ClearRecoveryConfig_migrates_first_witness :
  (∀ v, migration_can_run Sample.legacy_server →
        kv (barrier Sample.legacy_server) !! recoverySealConfigPath = Some v →
        ∃ w',
          ClearRecoveryConfig Sample.legacy_world = Returned tt w' ∧
          recoveryConfig (d w') = None ∧
          core (d w') = Some (migrated_core Sample.legacy_server v)) ∧
  (∀ e, faults (barrier Sample.legacy_server) (OpGet recoverySealConfigPath) = Some e →
        ∃ w',
          ClearRecoveryConfig Sample.legacy_world
          = Failed (Wrapf "failed to read old recovery seal configuration during migration" e) w' ∧
          d w' = d Sample.legacy_world).
Proof.
  apply (ClearRecoveryConfig_migrates_first Sample.legacy_world Sample.legacy_server).
  reflexivity.
Defined.

(** A barrier that cannot be read: the cache is not cleared. *)
Example ClearRecoveryConfig_unreadable_barrier :
  ∃ e w', ClearRecoveryConfig Sample2.unreadable_barrier_world = Failed e w' ∧
          d w' = d Sample2.unreadable_barrier_world.
Proof. eexists _, _. split; [vm_compute; reflexivity | reflexivity]. Qed.

(** X12. The migration scenario.  On a bound manager whose stores serve the
    calls, SetRecoveryConfig(conf) succeeds whether or not the barrier holds
    a legacy entry; afterwards the legacy path is empty, the plaintext path
    holds the encoding of conf with the recovery type stamped in (not the
    legacy bytes), and RecoveryConfig returns that configuration from a
    cache of its own, whatever the caller writes into its object later. *)
Theorem SetRecoveryConfig_then_RecoveryConfig
    (w : World) (c : Core) (a : nat) (conf : SealConfig) :
  core (d w) = Some c →
  migration_can_run c →
  heap w !! a = Some conf →
  ∃ w1,
    SetRecoveryConfig (Some a) w = Returned tt w1 ∧
    core (d w1)
    = Some (recovery_config_stored c
              (encodeConfig (pkg w) (set_Type RecoverySealConfigType conf))) ∧
    ∀ conf', ∃ q w3,
      RecoveryConfig (caller_writes a conf' w1) = Returned (Some q) w3 ∧
      heap w3 !! q = Some (set_Type RecoverySealConfigType conf) ∧
      trace w3 = trace w1.
Proof.
  intros Hcore Hrun Hheap. apply lookup_lt_Some in Hheap as Hlt.
  pose proof Hrun as (Hget & Hput & Hdel).
  destruct (kv (barrier c) !! recoverySealConfigPath) as [v|] eqn:Hv.
  - eexists. split.
    + rewrite (SetRecoveryConfig_after_migration w _ c (Some a) Hcore
                 (migrateRecoveryConfig_returns w c v Hcore Hrun Hv)).
      run_method. unfold store_Type, load, Put, new_SealConfig.
      repeat (progress (simpl; rewrite ?Hheap, ?Hput;
                        rewrite ?list_lookup_insert_eq by exact Hlt)).
      rewrite length_insert. reflexivity.
    + split.
      * simpl. unfold recovery_config_stored. simpl.
        rewrite insert_insert_eq. reflexivity.
      * intros conf'. eexists _, _. split.
        { run_method. unfold load, new_SealConfig. simpl.
          rewrite list_lookup_insert_ne by lia.
          rewrite lookup_app_r by (rewrite length_insert; lia).
          rewrite length_insert, Nat.sub_diag. simpl. reflexivity. }
        split; [simpl; apply lookup_fresh | reflexivity].
  - eexists. split.
    + rewrite (SetRecoveryConfig_after_migration w _ c (Some a) Hcore
                 (migrateRecoveryConfig_nothing_to_do w c Hcore Hget Hv)).
      run_method. unfold store_Type, load, Put, new_SealConfig.
      repeat (progress (simpl; rewrite ?Hcore, ?Hheap, ?Hput;
                        rewrite ?list_lookup_insert_eq by exact Hlt)).
      rewrite length_insert. reflexivity.
    + split.
      * simpl. unfold recovery_config_stored. simpl.
        rewrite (delete_id (kv (barrier c))) by exact Hv.
        destruct c as [ph [bkv bf] sl]. reflexivity.
      * intros conf'. eexists _, _. split.
        { run_method. unfold load, new_SealConfig. simpl.
          rewrite list_lookup_insert_ne by lia.
          rewrite lookup_app_r by (rewrite length_insert; lia).
          rewrite length_insert, Nat.sub_diag. simpl. reflexivity. }
        split; [simpl; apply lookup_fresh | reflexivity].
Qed.

Lemma SetRecoveryConfig_then_RecoveryConfig_witness :
  ∃ w1,
    SetRecoveryConfig (Some 0%nat) Sample2.legacy_caller_world = Returned tt w1 ∧
    core (d w1)
    = Some (recovery_config_stored Sample.legacy_server
              (encodeConfig (pkg Sample2.legacy_caller_world)
                 (set_Type RecoverySealConfigType Sample.callers_config))) ∧
    ∀ conf', ∃ q w3,
      RecoveryConfig (caller_writes 0 conf' w1) = Returned (Some q) w3 ∧
      heap w3 !! q = Some (set_Type RecoverySealConfigType Sample.callers_config) ∧
      trace w3 = trace w1.
Proof.
  apply (SetRecoveryConfig_then_RecoveryConfig Sample2.legacy_caller_world
           Sample.legacy_server 0 Sample.callers_config);
    [reflexivity | repeat split | reflexivity].
Defined.



(** ** The recovery key *)

(** X14. RecoveryKey returns the key of the latest successful
    SetRecoveryKey: on a backend that unwraps what it wrapped, and while the
    store serves the read, the bytes that come back are the bytes that were
    set, whatever key was stored before, and reading changes nothing in the
    manager or the store. *)
Theorem RecoveryKey_returns_key_set (w w1 : World) (k : bytes) :
  SetRecoveryKey (Some k) w = Returned tt w1 →
  unwraps_own_wraps (access (d w)) →
  recovery_key_readable w1 →
  ∃ w2, RecoveryKey w1 = Returned k w2 ∧ d w2 = d w1.
Proof.
  intros Hset Hround Hread.
  destruct (SetRecoveryKey_returned _ _ _ Hset)
    as (c & blob & Hcore & Henc & Hcore1 & Hdec).
  specialize (Hread _ Hcore1). simpl in Hread. apply Hround in Henc.
  eexists. split.
  - run_method. unfold Get.
    repeat (progress (simpl; rewrite ?Hcore1, ?Hread, ?lookup_insert_eq, ?Hdec, ?Henc)).
    reflexivity.
  - reflexivity.
Qed.

Lemma RecoveryKey_returns_key_set_witness :
  ∃ w2, RecoveryKey Sample.key_set_world = Returned Sample.stored_key w2 ∧
        d w2 = d Sample.key_set_world.
Proof.
  apply (RecoveryKey_returns_key_set Sample.bound_world Sample.key_set_world
           Sample.stored_key).
  - vm_compute. reflexivity.
  - intros n pt blob [= <-]. reflexivity.
  - intros c [= <-]. reflexivity.
Defined.

(** X15. As long as no recovery key is stored, RecoveryKey, VerifyRecoveryKey
    of any non-nil candidate and UpgradeKeys all fail with "no recovery key
    found" (the verification does not report a mismatch), after a single
    read of the recovery-key path: UpgradeKeys does not go on to the stored
    keys.  When the read itself is refused, RecoveryKey and VerifyRecoveryKey
    wrap the storage error as "failed to read recovery key" and UpgradeKeys
    as "failed to fetch recovery key".  Nothing in the manager changes. *)
Theorem recovery_key_unavailable (w : World) (c : Core) :
  core (d w) = Some c →
  (Get (physical c) recoveryKeyPath = Ok None →
   RecoveryKey w
   = Failed no_recovery_key_error
       (traced [EvLog "warn" "no recovery key found";
                EvGet "physical" recoveryKeyPath] w) ∧
   (∀ candidate,
      VerifyRecoveryKey (Some candidate) w
      = Failed no_recovery_key_error
          (traced [EvLog "warn" "no recovery key found";
                   EvGet "physical" recoveryKeyPath] w)) ∧
   UpgradeKeys w
   = Failed no_recovery_key_error (traced [EvGet "physical" recoveryKeyPath] w)) ∧
  (∀ e, Get (physical c) recoveryKeyPath = Fail e →
        RecoveryKey w
        = Failed (Wrapf "failed to read recovery key" e)
            (traced [EvLog "error" "failed to read recovery key";
                     EvGet "physical" recoveryKeyPath] w) ∧
        (∀ candidate,
           VerifyRecoveryKey (Some candidate) w
           = Failed (Wrapf "failed to read recovery key" e)
               (traced [EvLog "error" "failed to read recovery key";
                        EvGet "physical" recoveryKeyPath] w)) ∧
        UpgradeKeys w
        = Failed (Wrapf "failed to fetch recovery key" e)
            (traced [EvGet "physical" recoveryKeyPath] w)).
Proof.
  intros Hcore. split.
  - intros Hget. repeat split; try intros candidate; run_method;
      repeat (progress (simpl; rewrite ?Hcore, ?Hget)); reflexivity.
  - intros e Hget. repeat split; try intros candidate; run_method;
      repeat (progress (simpl; rewrite ?Hcore, ?Hget)); reflexivity.
Qed.

Lemma recovery_key_unavailable_witness :
  RecoveryKey Sample.bound_world
  = Failed no_recovery_key_error
      (traced [EvLog "warn" "no recovery key found";
               EvGet "physical" recoveryKeyPath] Sample.bound_world) ∧
  (∀ candidate,
     VerifyRecoveryKey (Some candidate) Sample.bound_world
     = Failed no_recovery_key_error
         (traced [EvLog "warn" "no recovery key found";
                  EvGet "physical" recoveryKeyPath] Sample.bound_world)) ∧
  UpgradeKeys Sample.bound_world
  = Failed no_recovery_key_error
      (traced [EvGet "physical" recoveryKeyPath] Sample.bound_world).
Proof.
  refine (proj1 (recovery_key_unavailable Sample.bound_world Sample.empty_server _) _);
    reflexivity.
Defined.

(** ** Key upgrades *)



(** X17. When the recovery key is up to date and no stored keys entry
    exists, UpgradeKeys fails with "no stored keys found" after reading the
    two paths, and nothing in the manager changes. *)
Theorem UpgradeKeys_without_stored_keys (w : World) (c : Core) :
  up_to_date w recoveryKeyPath →
  core (d w) = Some c →
  Get (physical c) StoredBarrierKeysPath = Ok None →
  UpgradeKeys w
  = Failed (Errorf "no stored keys found") (traced upgrade_reads w).
Proof.
  intros (c' & v & val & Hcore' & Hget & Hun & Hup) Hcore Hnone.
  rewrite Hcore in Hcore'. injection Hcore' as <-.
  run_method.
  repeat (progress (simpl; rewrite ?Hcore, ?Hget, ?Hun, ?Hup, ?Hnone)).
  reflexivity.
Qed.

Lemma UpgradeKeys_without_stored_keys_witness :
  UpgradeKeys Sample2.keyless_world
  = Failed (Errorf "no stored keys found") (traced upgrade_reads Sample2.keyless_world).
Proof.
  apply (UpgradeKeys_without_stored_keys Sample2.keyless_world Sample2.keyless_server).
  - exists Sample2.keyless_server, [Sample.tag; x2a], [Sample.tag; x2a].
    repeat split; vm_compute; reflexivity.
  - reflexivity.
  - reflexivity.
Defined.

#[global] Instance same_pkg_preorder : PreOrder same_pkg.
Proof.
  split; [intros w; reflexivity | intros a b c Hab Hbc].
  unfold same_pkg in *. congruence.
Qed.

Lemma upgradeRecoveryKey_same_pkg : respects same_pkg (λ _, True) upgradeRecoveryKey.
Proof. respects_auto field_side. Qed.

Lemma unchanged_unless_holds {A} (P : Prop) (w : World) (o : Outcome A) :
  P → unchanged_unless P w o.
Proof. intros HP. destruct o; simpl; auto. Qed.

Lemma unchanged_unless_weaken {A} (P Q : Prop) (w : World) (o : Outcome A) :
  (P → Q) → unchanged_unless P w o → unchanged_unless Q w o.
Proof. intros HPQ. destruct o; simpl; tauto. Qed.

Lemma upgradeRecoveryKey_unchanged_unless (w : World) :
  unchanged_unless (needs_upgrade w recoveryKeyPath) w (upgradeRecoveryKey w).
Proof.
  destruct (core (d w)) as [c|] eqn:Hcore;
    [|run_method; rewrite Hcore; exact I].
  destruct (faults (physical c) (OpGet recoveryKeyPath)) as [e|] eqn:Hget;
    [run_method; unfold Get; repeat (progress (simpl; rewrite ?Hcore, ?Hget));
     left; reflexivity|].
  destruct (kv (physical c) !! recoveryKeyPath) as [v|] eqn:Hv;
    [|run_method; unfold Get; repeat (progress (simpl; rewrite ?Hcore, ?Hget, ?Hv));
      left; reflexivity].
  destruct (UnmarshalSealWrappedValue (pkg w) v) as [val|e] eqn:Hun;
    [|run_method; unfold Get;
      repeat (progress (simpl; rewrite ?Hcore, ?Hget, ?Hv, ?Hun));
      left; reflexivity].
  destruct (IsUpToDate (access (d w)) val true) as [[|]|e] eqn:Hup.
  - run_method. unfold Get.
    repeat (progress (simpl; rewrite ?Hcore, ?Hget, ?Hv, ?Hun, ?Hup)).
    left. reflexivity.
  - apply unchanged_unless_holds. exists c, v, val.
    repeat split; try assumption. unfold Get. rewrite Hget, Hv. reflexivity.
  - run_method. unfold Get.
    repeat (progress (simpl; rewrite ?Hcore, ?Hget, ?Hv, ?Hun, ?Hup)).
    left. reflexivity.
Qed.

Lemma upgradeStoredKeys_unchanged_unless (w : World) :
  unchanged_unless (needs_upgrade w StoredBarrierKeysPath) w (upgradeStoredKeys w).
Proof.
  destruct (core (d w)) as [c|] eqn:Hcore;
    [|run_method; rewrite Hcore; exact I].
  destruct (faults (physical c) (OpGet StoredBarrierKeysPath)) as [e|] eqn:Hget;
    [run_method; unfold Get; repeat (progress (simpl; rewrite ?Hcore, ?Hget));
     left; reflexivity|].
  destruct (kv (physical c) !! StoredBarrierKeysPath) as [v|] eqn:Hv;
    [|run_method; unfold Get; repeat (progress (simpl; rewrite ?Hcore, ?Hget, ?Hv));
      left; reflexivity].
  destruct (UnmarshalSealWrappedValue (pkg w) v) as [val|e] eqn:Hun;
    [|run_method; unfold Get;
      repeat (progress (simpl; rewrite ?Hcore, ?Hget, ?Hv, ?Hun));
      left; reflexivity].
  destruct (IsUpToDate (access (d w)) val true) as [[|]|e] eqn:Hup.
  - run_method. unfold Get.
    repeat (progress (simpl; rewrite ?Hcore, ?Hget, ?Hv, ?Hun, ?Hup)).
    left. reflexivity.
  - apply unchanged_unless_holds. exists c, v, val.
    repeat split; try assumption. unfold Get. rewrite Hget, Hv. reflexivity.
  - run_method. unfold Get.
    repeat (progress (simpl; rewrite ?Hcore, ?Hget, ?Hv, ?Hun, ?Hup)).
    left. reflexivity.
Qed.

Lemma needs_upgrade_same (w w1 : World) (path : string) :
  d w1 = d w → pkg w1 = pkg w → needs_upgrade w1 path → needs_upgrade w path.
Proof.
  intros Hd Hp (c & v & val & H). exists c, v, val.
  rewrite Hd, Hp in H. exact H.
Qed.

(** X18. UpgradeKeys changes nothing unless an artifact is reported out of
    date.  However the call ends (success, a missing entry, a refused read,
    a value that does not decode, an error of the up-to-date check), the
    manager, its core and the stored bytes are what they were, except when
    the recovery-key entry or the stored-keys entry exists, decodes and is
    answered "not up to date" by the backend. *)
Theorem UpgradeKeys_writes_only_when_out_of_date (w : World) :
  unchanged_unless
    (needs_upgrade w recoveryKeyPath ∨ needs_upgrade w StoredBarrierKeysPath)
    w (UpgradeKeys w).
Proof.
  pose proof (upgradeRecoveryKey_unchanged_unless w) as Hrec.
  pose proof (upgradeRecoveryKey_same_pkg w) as Hpkg.
  unfold UpgradeKeys, mbind, M_bind.
  destruct (upgradeRecoveryKey w) as [[] w1|e w1|msg]; simpl in *.
  - destruct Hrec as [Hd|Hneed];
      [|apply unchanged_unless_holds; left; exact Hneed].
    destruct Hpkg as [Hp _].
    pose proof (upgradeStoredKeys_unchanged_unless w1) as Hkeys.
    destruct (upgradeStoredKeys w1) as [u w2|e w2|msg]; simpl in *; try exact I.
    + destruct Hkeys as [Hd2|Hneed]; [left; congruence|].
      right. right. eapply needs_upgrade_same; eassumption.
    + destruct Hkeys as [Hd2|Hneed]; [left; congruence|].
      right. right. eapply needs_upgrade_same; eassumption.
  - destruct Hrec as [Hd|Hneed]; [left; exact Hd | right; left; exact Hneed].
  - exact I.
Qed.

(** ** Starting and stopping the health loop *)

(** X19. StartHealthCheck on a manager that SetCore has not bound panics:
    it reads the core's context without a check.  StopHealthCheck is safe in
    every state: it never fails, leaves a stopped manager exactly as it was,
    and after it the stop channel is nil.  On a bound manager
    StartHealthCheck returns with the stop channel set and the ticker at the
    nominal interval, also when a loop was already running. *)
Theorem health_loop_start_stop (w : World) :
  (core (d w) = None → StartHealthCheck w = Panicked nil_deref) ∧
  (healthCheckStop (d w) = false → StopHealthCheck w = Returned tt w) ∧
  (∃ w', StopHealthCheck w = Returned tt w' ∧ healthCheckStop (d w') = false ∧
         StopHealthCheck w' = Returned tt w') ∧
  (∀ c, core (d w) = Some c →
        ∃ w', StartHealthCheck w = Returned tt w' ∧
              healthCheckStop (d w') = true ∧
              ticker w' = sealHealthTestIntervalNominal ∧
              core (d w') = Some c ∧
              allSealsHealthy (d w') = allSealsHealthy (d w)).
Proof.
  split; [|split; [|split]].
  - intros Hcore. run_method. unfold NewTicker.
    destruct (healthCheckStop (d w)); simpl; rewrite Hcore; reflexivity.
  - intros Hstop. run_method. rewrite Hstop. reflexivity.
  - destruct (healthCheckStop (d w)) eqn:Hstop.
    + eexists. split; [run_method; rewrite Hstop; reflexivity|].
      split; reflexivity.
    + exists w. split; [run_method; rewrite Hstop; reflexivity|].
      split; [exact Hstop | run_method; rewrite Hstop; reflexivity].
  - intros c Hcore. run_method. unfold NewTicker.
    destruct (healthCheckStop (d w)); simpl; rewrite Hcore; simpl;
      eexists; (split; [reflexivity|]); repeat split; assumption.
Qed.

(** ** One probe of a backend *)

Lemma probe_effect (t : Z) (testVal : bytes) (w : World) (c : Core)
    (pre : list SealInfo) (x : SealInfo) (rest : list SealInfo) (acc : bool) :
  core (d w) = Some c →
  SealInfos (access (d w)) = pre ++ x :: rest →
  ∃ w',
    probe t testVal (length pre) acc w
    = Returned (encrypt_fails testVal x || acc) w' ∧
    SealInfos (access (d w')) = pre ++ probed_info testVal (clock w) x :: rest ∧
    ticker w' = ticker_after_probe testVal x (ticker w) ∧
    clock w < clock w'.
Proof.
  intros Hcore Hl.
  unfold encrypt_fails, ticker_after_probe, probed_info, round_trips, decrypt_errors.
  run_method. unfold seal_at, time_Now, ticker_Reset.
  repeat (progress (simpl; rewrite ?Hl, ?Hcore, ?alter_middle, ?list_lookup_middle by reflexivity)).
  destruct (w_Encrypt x testVal) as [ciphertext|e] eqn:Henc.
  - destruct (w_Decrypt x ciphertext) as [plaintext err] eqn:Hdec.
    destruct err as [e|], (bytes_Equal testVal plaintext) eqn:Heq, (Healthy_ x) eqn:Hh;
      repeat (progress (simpl; rewrite ?Hl, ?Hcore, ?Hh, ?Heq, ?alter_middle,
                          ?list_lookup_middle by reflexivity));
      eexists; (split; [reflexivity|]); simpl;
      rewrite ?Hl, ?alter_middle; simpl;
      repeat split; try lia;
      try (rewrite bool_decide_true by (eexists; reflexivity); reflexivity);
      try (rewrite bool_decide_false by (intros [? [=]]); reflexivity);
      try reflexivity.
  - destruct (Healthy_ x) eqn:Hh;
      repeat (progress (simpl; rewrite ?Hl, ?Hcore, ?Hh, ?alter_middle,
                          ?list_lookup_middle by reflexivity));
      eexists; (split; [reflexivity|]); simpl;
      rewrite ?Hl, ?alter_middle; simpl; repeat split; lia.
Qed.

(** X20. How a probe moves the polling interval.  On a bound manager the
    probe of a backend returns, and the ticker goes to the one-minute
    interval when a backend marked healthy fails its round trip, goes back
    to the ten-minute interval when a backend marked unhealthy passes, and
    is left alone when an unhealthy backend fails again or a healthy one
    passes cleanly.  A healthy backend whose decrypt reports an error yet
    yields the right plaintext is reset twice and ends at the ten-minute
    interval. *)
Theorem probe_sets_polling_interval
    (t : Z) (testVal : bytes) (w : World) (c : Core)
    (pre : list SealInfo) (x : SealInfo) (rest : list SealInfo) (acc : bool) :
  core (d w) = Some c →
  SealInfos (access (d w)) = pre ++ x :: rest →
  ∃ b w',
    probe t testVal (length pre) acc w = Returned b w' ∧
    (Healthy_ x = true → round_trips testVal x = false →
     ticker w' = sealHealthTestIntervalUnhealthy) ∧
    (Healthy_ x = false → round_trips testVal x = true →
     ticker w' = sealHealthTestIntervalNominal) ∧
    (Healthy_ x = false → round_trips testVal x = false → ticker w' = ticker w) ∧
    (Healthy_ x = true → round_trips testVal x = true →
     ticker w' = if decrypt_errors testVal x
                 then sealHealthTestIntervalNominal else ticker w).
Proof.
  intros Hcore Hl.
  destruct (probe_effect t testVal w c pre x rest acc Hcore Hl)
    as (w' & Hrun & _ & Htick & _).
  exists (encrypt_fails testVal x || acc), w'. split; [exact Hrun|].
  rewrite Htick. unfold ticker_after_probe.
  repeat split; intros Hh Hr; rewrite Hh, Hr; simpl; try reflexivity.
  destruct (decrypt_errors testVal x); reflexivity.
Qed.

Lemma probe_sets_polling_interval_witness :
  ∃ b w',
    probe 0 (heartbeat 7) (length (@nil SealInfo)) false Sample2.mixed_world
    = Returned b w' ∧
    (Healthy_ Sample.seal_no_decrypt = true →
     round_trips (heartbeat 7) Sample.seal_no_decrypt = false →
     ticker w' = sealHealthTestIntervalUnhealthy) ∧
    (Healthy_ Sample.seal_no_decrypt = false →
     round_trips (heartbeat 7) Sample.seal_no_decrypt = true →
     ticker w' = sealHealthTestIntervalNominal) ∧
    (Healthy_ Sample.seal_no_decrypt = false →
     round_trips (heartbeat 7) Sample.seal_no_decrypt = false →
     ticker w' = ticker Sample2.mixed_world) ∧
    (Healthy_ Sample.seal_no_decrypt = true →
     round_trips (heartbeat 7) Sample.seal_no_decrypt = true →
     ticker w' = if decrypt_errors (heartbeat 7) Sample.seal_no_decrypt
                 then sealHealthTestIntervalNominal else ticker Sample2.mixed_world).
Proof.
  apply (probe_sets_polling_interval 0 (heartbeat 7) Sample2.mixed_world
           Sample.empty_server [] Sample.seal_no_decrypt [Sample2.seal_recovering] false);
    reflexivity.
Defined.

(** In one pass the last transition decides the interval: the first
    backend fails (one minute), the second recovers (ten minutes), and the
    ticker ends at ten minutes with a backend unhealthy. *)
Example check_last_transition_sets_interval :
  ∃ w', check 0 7 Sample2.mixed_world = Returned tt w' ∧
        Healthy_ <$> SealInfos (access (d w')) = [false; true] ∧
        ticker w' = sealHealthTestIntervalNominal.
Proof. eexists. split; [vm_compute; reflexivity | split; reflexivity]. Qed.

(** X21. What a probe records.  On a bound manager the probe of a backend
    changes that backend's entry only: it sets LastHealthCheck to the time
    of the check, and sets Healthy and LastSeenHealthy to true and that
    same time when the round trip passed, and Healthy to false with
    LastSeenHealthy kept when it did not.  Name, priority and the entries
    of the other backends are untouched, and LastSeenHealthy never runs
    ahead of LastHealthCheck if it was not ahead of the clock. *)
Theorem probe_records_timestamps
    (t : Z) (testVal : bytes) (w : World) (c : Core)
    (pre : list SealInfo) (x : SealInfo) (rest : list SealInfo) (acc : bool) :
  core (d w) = Some c →
  SealInfos (access (d w)) = pre ++ x :: rest →
  ∃ b w' x',
    probe t testVal (length pre) acc w = Returned b w' ∧
    SealInfos (access (d w')) = pre ++ x' :: rest ∧
    Name x' = Name x ∧ Priority x' = Priority x ∧
    LastHealthCheck x' = clock w ∧
    (round_trips testVal x = true →
     Healthy_ x' = true ∧ LastSeenHealthy x' = clock w) ∧
    (round_trips testVal x = false →
     Healthy_ x' = false ∧ LastSeenHealthy x' = LastSeenHealthy x) ∧
    (LastSeenHealthy x ≤ clock w → LastSeenHealthy x' ≤ LastHealthCheck x').
Proof.
  intros Hcore Hl.
  destruct (probe_effect t testVal w c pre x rest acc Hcore Hl)
    as (w' & Hrun & Hl' & _ & _).
  exists (encrypt_fails testVal x || acc), w', (probed_info testVal (clock w) x).
  split; [exact Hrun|]. split; [exact Hl'|]. simpl.
  split; [reflexivity|]. split; [reflexivity|]. split; [reflexivity|].
  split; [intros ->; split; reflexivity|].
  split; [intros ->; split; reflexivity|].
  intros Hle. destruct (round_trips testVal x); lia.
Qed.

Lemma probe_records_timestamps_witness :
  ∃ b w' x',
    probe 0 (heartbeat 7) (length [Sample.seal_no_decrypt]) false Sample2.mixed_world
    = Returned b w' ∧
    SealInfos (access (d w')) = [Sample.seal_no_decrypt] ++ x' :: [] ∧
    Name x' = Name Sample2.seal_recovering ∧
    Priority x' = Priority Sample2.seal_recovering ∧
    LastHealthCheck x' = clock Sample2.mixed_world ∧
    (round_trips (heartbeat 7) Sample2.seal_recovering = true →
     Healthy_ x' = true ∧ LastSeenHealthy x' = clock Sample2.mixed_world) ∧
    (round_trips (heartbeat 7) Sample2.seal_recovering = false →
     Healthy_ x' = false ∧
     LastSeenHealthy x' = LastSeenHealthy Sample2.seal_recovering) ∧
    (LastSeenHealthy Sample2.seal_recovering ≤ clock Sample2.mixed_world →
     LastSeenHealthy x' ≤ LastHealthCheck x').
Proof.
  apply (probe_records_timestamps 0 (heartbeat 7) Sample2.mixed_world
           Sample.empty_server [Sample.seal_no_decrypt] Sample2.seal_recovering [] false);
    reflexivity.
Defined.

(** ** SetRecoveryConfig on a store that refuses the write *)

(** X22. When the physical store refuses writes at the plaintext path,
    SetRecoveryConfig(conf) fails and the cache and the stores keep what
    they held, in one of two ways.  With a legacy entry in the barrier the
    migration fails first: the error is the migration's and the caller's
    object is not touched.  Without one the migration passes, the caller's
    object is stamped with the recovery type, and the error is wrapped as
    "failed to write recovery seal configuration". *)
Theorem SetRecoveryConfig_failed_persist
    (w : World) (c : Core) (a : nat) (conf : SealConfig) (e : error) :
  core (d w) = Some c →
  heap w !! a = Some conf →
  faults (barrier c) (OpGet recoverySealConfigPath) = None →
  faults (physical c) (OpPut recoverySealConfigPlaintextPath) = Some e →
  (∀ v, kv (barrier c) !! recoverySealConfigPath = Some v →
        ∃ w',
          SetRecoveryConfig (Some a) w
          = Failed (Wrapf "failed to write recovery seal configuration during migration" e) w' ∧
          d w' = d w ∧ heap w' = heap w) ∧
  (kv (barrier c) !! recoverySealConfigPath = None →
   ∃ e' w',
     SetRecoveryConfig (Some a) w
     = Failed (Wrapf "failed to write recovery seal configuration" e') w' ∧
     d w' = d w ∧
     heap w' !! a = Some (set_Type RecoverySealConfigType conf)).
Proof.
  intros Hcore Hheap Hget Hput. apply lookup_lt_Some in Hheap as Hlt. split.
  - intros v Hv. eexists. split.
    + run_method. unfold Get, Put.
      repeat (progress (simpl; rewrite ?Hcore, ?Hget, ?Hv, ?Hput)). reflexivity.
    + split; reflexivity.
  - intros Hv. eexists _, _. split.
    + rewrite (SetRecoveryConfig_after_migration w _ c (Some a) Hcore
                 (migrateRecoveryConfig_nothing_to_do w c Hcore Hget Hv)).
      run_method. unfold store_Type, load, Put, new_SealConfig.
      repeat (progress (simpl; rewrite ?Hcore, ?Hheap, ?Hput;
                        rewrite ?list_lookup_insert_eq by exact Hlt)).
      reflexivity.
    + split; [reflexivity|]. simpl. apply list_lookup_insert_eq. exact Hlt.
Qed.

Lemma SetRecoveryConfig_failed_persist_witness :
  (∀ v, kv (barrier Sample2.stuck_server) !! recoverySealConfigPath = Some v →
        ∃ w',
          SetRecoveryConfig (Some 0%nat) Sample2.stuck_caller_world
          = Failed (Wrapf "failed to write recovery seal configuration during migration"
                      (Errorf "read-only storage")) w' ∧
          d w' = d Sample2.stuck_caller_world ∧
          heap w' = heap Sample2.stuck_caller_world) ∧
  (kv (barrier Sample2.stuck_server) !! recoverySealConfigPath = None →
   ∃ e' w',
     SetRecoveryConfig (Some 0%nat) Sample2.stuck_caller_world
     = Failed (Wrapf "failed to write recovery seal configuration" e') w' ∧
     d w' = d Sample2.stuck_caller_world ∧
     heap w' !! 0%nat = Some (set_Type RecoverySealConfigType Sample.callers_config)).
Proof.
  apply (SetRecoveryConfig_failed_persist Sample2.stuck_caller_world
           Sample2.stuck_server 0 Sample.callers_config (Errorf "read-only storage"));
    reflexivity.
Defined.
